(** * Kafka-Cascade: the CascadeService class

    A shallow embedding of [CascadeService], the root component of the
    retry-topic cascade, and proofs about its retry-level list, its
    lifecycle operations and its event surface.

    The repository carries the class twice:
    - [src/kafka-cascade/src/cascadeService.ts] (module [CascadeService]);
    - [src/unnamed/part_000], a copy with synchronous [setRetryLevels],
      a nine-name event list and [Promise.all] in [connect]
      (module [Part000]).

    [CascadeProducer] and [CascadeConsumer] are imported by both files
    but their sources are not part of the tree; what is needed of them
    is modelled from the specification and marked as such. *)

From Stdlib Require Import ZArith List String Ascii Bool Lia DecimalString.
Import ListNotations.

Open Scope string_scope.
Open Scope list_scope.
Open Scope Z_scope.

(** ** JavaScript values that cross the service's boundary *)

(** [String(n)] for an integral number: decimal digits, a leading minus
    sign for negatives. *)
Definition number_to_string (n : Z) : string :=
  NilZero.string_of_int (Z.to_int n).

(** A thrown value.  [new Error(m)] is the only error the service
    constructs itself.  The runtime raises two more: a [TypeError] where
    a method is called on a value that does not have it, and the
    [ERR_UNHANDLED_ERROR] with which [EventEmitter] answers an [error]
    event nobody listens to, which carries the emitted value as
    [util.inspect] prints it.  Everything else comes out of a
    collaborator: an error object known by the text [String(error)]
    yields. *)
Inductive Thrown : Type :=
| NewError (message : string)
| Foreign (rendering : string)
| TypeError (message : string)
| UnhandledError (inspected : string).

(** [Error.prototype.toString]: the name alone when the message is
    empty, otherwise name, colon, message. *)
Definition named (name message : string) : string :=
  match message with
  | EmptyString => name
  | _ => name ++ ": " ++ message
  end.

(** ['...' + error]: the string conversion applied by [+]. *)
Definition String_of (e : Thrown) : string :=
  match e with
  | NewError m => named "Error" m
  | Foreign r => r
  | TypeError m => named "TypeError" m
  | UnhandledError i =>
      named "Error [ERR_UNHANDLED_ERROR]" ("Unhandled error. (" ++ i ++ ")")
  end.

(** A broker message: the broker's offset, the payload, and the cascade's
    [retries] header, which may be absent. *)
Record Message : Type := mkMessage {
  offset : nat;
  payload : string;
  retries_header : option nat
}.

(** The values collaborators hand over: [undefined], [true], an array
    of strings, some other object known by a label (what [consumer.run]
    resolves with), a promise nobody waits for, and the two-element
    array [Promise.all] fulfils with. *)
Inductive Value : Type :=
| VUndefined
| VTrue
| VTopics (names : list string)
| VStatus (s : string)
| VPromise
| VPair (first second : Value).

(** How a call on a collaborator ends: its promise fulfils, its promise
    rejects, or the call throws before returning anything. *)
Inductive Outcome : Type :=
| Fulfilled (v : Value)
| RejectedWith (e : Thrown)
| ThrewSync (e : Thrown).

(** The operations of the collaborators ([this.producer], [this.consumer],
    [this.kafka.admin()], the broker client under the producer) and
    [new RegExp], which throws on a malformed pattern. *)
Inductive ExtOp : Type :=
| ProducerConnect
| ProducerDisconnect
| ProducerStop
| ProducerPause
| ProducerResume
| ProducerSend (m : Message)
| ConsumerConnect
| ConsumerDisconnect
| ConsumerStop
| ConsumerPause
| ConsumerResume
| ConsumerRun
| KafkaAdmin
| AdminConnect
| AdminCreateTopics (topics : list string)
| AdminListTopics
| AdminDisconnect
| NewRegExp (pattern : string)
| BrokerPublish (destination : string) (m : Message)
| ServiceCallback (m : Message).

(** The environment of one call: what each collaborator operation does
    when it is reached. *)
Definition Env : Type := ExtOp -> Outcome.

(** What [await f()] inside a [try] sees as a failure, and what a plain
    call [f()] sees as one. *)
Definition await_failure (o : Outcome) : option Thrown :=
  match o with
  | Fulfilled _ => None
  | RejectedWith e => Some e
  | ThrewSync e => Some e
  end.

Definition call_failure (o : Outcome) : option Thrown :=
  match o with
  | ThrewSync e => Some e
  | _ => None
  end.

Inductive UserCB : Type := SuccessCB | DlqCB.

Inductive EventArg : Type :=
| NoArg
| ArgMessage (m : Message)
| ArgText (s : string)
| ArgThrown (e : Thrown).

(** What the outside can observe of a call, in the order it happens. *)
Inductive Action : Type :=
| Invoked (op : ExtOp)
| Settled (op : ExtOp) (o : Outcome)
| Emitted (event : string) (arg : EventArg)
| Logged (text : string)
| CalledBack (cb : UserCB) (m : Message)
| TimerSet (ms : Z)
| Resolved (v : Value)
| Rejected (e : Thrown).

(** ** The objects *)

(** The array a producer routes against: one of its own, or the very
    array object held in the service's [topicsArr] field. *)
Inductive ArrayRef : Type :=
| OwnArray (contents : list string)
| TopicsArrOfService.

Definition Listener : Type := nat.

(** The fields of a [CascadeService] instance that its methods read or
    write, the two fields of its producer that the service depends on,
    and the listener table inherited from [EventEmitter]. *)
Record World : Type := mkWorld {
  topic : string;
  retries : Z;
  topicsArr : list string;
  producer_retryTopics : ArrayRef;
  producer_paused : bool;
  listeners : list (string * Listener)
}.

Definition set_retries (n : Z) (w : World) : World :=
  mkWorld (topic w) n (topicsArr w) (producer_retryTopics w)
          (producer_paused w) (listeners w).

Definition set_topicsArr (a : list string) (w : World) : World :=
  mkWorld (topic w) (retries w) a (producer_retryTopics w)
          (producer_paused w) (listeners w).

Definition set_producer_retryTopics (r : ArrayRef) (w : World) : World :=
  mkWorld (topic w) (retries w) (topicsArr w) r
          (producer_paused w) (listeners w).

Definition set_producer_paused (b : bool) (w : World) : World :=
  mkWorld (topic w) (retries w) (topicsArr w) (producer_retryTopics w)
          b (listeners w).

Definition add_listener (event : string) (cb : Listener) (w : World) : World :=
  mkWorld (topic w) (retries w) (topicsArr w) (producer_retryTopics w)
          (producer_paused w) (listeners w ++ [(event, cb)]).

(** The list the producer sees when it dereferences its field. *)
Definition producer_view (w : World) : list string :=
  match producer_retryTopics w with
  | OwnArray l => l
  | TopicsArrOfService => topicsArr w
  end.

(** ** Method bodies as programs

    A method body is a tree of steps: reads and writes of the fields,
    observable actions, calls on collaborators.  [Settle op k] is the
    point where an [async] body waits for the promise of [op] and gives
    control back to the event loop; [Later ms k] is
    [setTimeout(() => k, ms)] as the last statement of a body.
    Everything between two such points runs without interruption. *)
Inductive Prog (A : Type) : Type :=
| Ret (a : A)
| Throw (e : Thrown)
| Get (k : World -> Prog A)
| Modify (f : World -> World) (k : Prog A)
| Do (a : Action) (k : Prog A)
| Call (op : ExtOp) (k : Outcome -> Prog A)
| Settle (op : ExtOp) (k : Outcome -> Prog A)
| Later (ms : Z) (k : Prog A).

Arguments Ret {A} a.
Arguments Throw {A} e.
Arguments Get {A} k.
Arguments Modify {A} f k.
Arguments Do {A} a k.
Arguments Call {A} op k.
Arguments Settle {A} op k.
Arguments Later {A} ms k.

Fixpoint bind {A B : Type} (p : Prog A) (f : A -> Prog B) : Prog B :=
  match p with
  | Ret a => f a
  | Throw e => Throw e
  | Get k => Get (fun w => bind (k w) f)
  | Modify g k => Modify g (bind k f)
  | Do a k => Do a (bind k f)
  | Call op k => Call op (fun o => bind (k o) f)
  | Settle op k => Settle op (fun o => bind (k o) f)
  | Later ms k => Later ms (bind k f)
  end.

(** [try { p } catch (error) { h error }].  The body of a [setTimeout]
    callback runs after the [try] block has been left, so [Later] takes
    its continuation out of the handler's reach. *)
Fixpoint try_catch {A : Type} (p : Prog A) (h : Thrown -> Prog A) : Prog A :=
  match p with
  | Ret a => Ret a
  | Throw e => h e
  | Get k => Get (fun w => try_catch (k w) h)
  | Modify g k => Modify g (try_catch k h)
  | Do a k => Do a (try_catch k h)
  | Call op k => Call op (fun o => try_catch (k o) h)
  | Settle op k => Settle op (fun o => try_catch (k o) h)
  | Later ms k => Later ms k
  end.

Declare Scope prog_scope.
Delimit Scope prog_scope with prog.
Notation "x <- p ;; q" := (bind p (fun x => q))
  (at level 61, p at next level, right associativity) : prog_scope.
Notation "p ;; q" := (bind p (fun _ => q))
  (at level 61, right associativity) : prog_scope.
Open Scope prog_scope.

(** [await op()] *)
Definition await (op : ExtOp) : Prog Value :=
  Call op (fun o =>
    match o with
    | ThrewSync e => Throw e
    | _ => Settle op (fun o' =>
             match o' with
             | Fulfilled v => Ret v
             | RejectedWith e => Throw e
             | ThrewSync e => Throw e
             end)
    end).

(** [op()] with nothing waiting for the promise it may return. *)
Definition call (op : ExtOp) : Prog Value :=
  Call op (fun o =>
    match o with
    | Fulfilled v => Ret v
    | RejectedWith _ => Ret VPromise
    | ThrewSync e => Throw e
    end).

Definition act (a : Action) : Prog unit := Do a (Ret tt).

(** Whether the listener table has an entry for [event]. *)
Definition heard (event : string) (table : list (string * Listener)) : bool :=
  existsb (fun entry => String.eqb (fst entry) event) table.

Arguments heard event table : simpl never.

(** What [EventEmitter.emit('error', arg)] throws when the table has no
    [error] entry: [arg] itself when it is an error object, otherwise an
    [ERR_UNHANDLED_ERROR] around it.  The class emits [error] with a text
    (both copies) or with the error it caught ([part_000], line 90);
    [util.inspect] puts a text in quotes.  A message, which the class
    never emits as an error, stands by its payload. *)
Definition unhandled (arg : EventArg) : Thrown :=
  match arg with
  | ArgThrown e => e
  | ArgText s => UnhandledError ("'" ++ s ++ "'")
  | ArgMessage m => UnhandledError ("'" ++ payload m ++ "'")
  | NoArg => UnhandledError "undefined"
  end.

(** [this.emit(event, arg)] on the service, which is an [EventEmitter]:
    an [error] event with no [error] listener in the table is thrown at
    the emitting code and reaches nobody; any other event is put on the
    service's channel.  The listeners themselves are the subscribers'
    code; they are taken to return. *)
Definition emit (event : string) (arg : EventArg) : Prog unit :=
  Get (fun w =>
    if String.eqb event "error" && negb (heard "error" (listeners w))
    then Throw (unhandled arg)
    else act (Emitted event arg)).

(** An event on the emitter of a collaborator (the producer, the
    consumer), which is not the service's.  In [cascadeService.ts] the
    constructor puts a listener on each of [retry], [dlq], [error]
    (lines 60-62) and [receive], [serviceError], [error] (lines 64-66),
    so that none of them goes unheard there. *)
Definition signal (event : string) (arg : EventArg) : Prog unit :=
  act (Emitted event arg).
Definition console_log (text : string) : Prog unit := act (Logged text).
Definition resolve (v : Value) : Prog unit := act (Resolved v).
Definition reject (e : Thrown) : Prog unit := act (Rejected e).
Definition modify (f : World -> World) : Prog unit := Modify f (Ret tt).

(** Running a body to its end against an environment: the final fields,
    the actions in order, and the value returned or thrown. *)
Fixpoint exec {A : Type} (env : Env) (p : Prog A) (w : World)
  : World * list Action * (Thrown + A) :=
  match p with
  | Ret a => (w, [], inr a)
  | Throw e => (w, [], inl e)
  | Get k => exec env (k w) w
  | Modify f k => exec env k (f w)
  | Do a k =>
      let '(w', acts, r) := exec env k w in (w', a :: acts, r)
  | Call op k =>
      let '(w', acts, r) := exec env (k (env op)) w in
      (w', Invoked op :: acts, r)
  | Settle op k =>
      let '(w', acts, r) := exec env (k (env op)) w in
      (w', Settled op (env op) :: acts, r)
  | Later ms k =>
      let '(w', acts, r) := exec env k w in (w', TimerSet ms :: acts, r)
  end.

Definition final {A : Type} (x : World * list Action * (Thrown + A)) : World :=
  fst (fst x).
Definition actions {A : Type} (x : World * list Action * (Thrown + A))
  : list Action := snd (fst x).
Definition outcome {A : Type} (x : World * list Action * (Thrown + A))
  : Thrown + A := snd x.

(** How the promise handed to the caller settles: by the first [resolve]
    or [reject] the body reaches, if any. *)
Fixpoint settlement (acts : list Action) : option (Thrown + Value) :=
  match acts with
  | [] => None
  | Resolved v :: _ => Some (inr v)
  | Rejected e :: _ => Some (inl e)
  | _ :: rest => settlement rest
  end.

(** ** What is needed of CascadeProducer *)

Module CascadeProducer.

(** Modelled from the spec: [cascadeProducer.ts] is missing.  The spec
    gives [setRetryTopics(topics, options?)] as "replaces the internal
    RetryLevelList reference used for routing decisions.  Pure
    assignment": the producer keeps the reference it is handed. *)
Definition setRetryTopics (r : ArrayRef) : Prog unit :=
  modify (set_producer_retryTopics r).

(** Modelled from the spec: [cascadeProducer.ts] is missing.  A new
    producer has no retry levels of its own yet. *)
Definition initial_retryTopics : ArrayRef := OwnArray [].

(** Modelled from the spec: [cascadeProducer.ts] is missing.  A new
    producer is running ("PauseState: a two-valued flag, Running or
    Paused"). *)
Definition initial_paused : bool := false.

(** Modelled from the spec: [cascadeProducer.ts] is missing.  "pause() /
    resume(): toggle the producer-side PauseState flag".  The service
    calls [pause] without waiting for anything. *)
Definition pause : Prog unit :=
  call ProducerPause ;; modify (set_producer_paused true).

(** Modelled from the spec: [cascadeProducer.ts] is missing.  The other
    half of the toggle; the service awaits it. *)
Definition resume : Prog unit :=
  await ProducerResume ;; modify (set_producer_paused false).

(** Modelled from the spec: [cascadeProducer.ts] is missing.  "reads
    message.retries (default 0 if absent)". *)
Definition retries_of (msg : Message) : nat :=
  match retries_header msg with
  | Some k => k
  | None => O
  end.

(** Modelled from the spec: [cascadeProducer.ts] is missing.  "with
    retries incremented by 1 in the outgoing message's metadata"; the
    payload passes through. *)
Definition outgoing (msg : Message) : Message :=
  mkMessage (offset msg) (payload msg) (Some (S (retries_of msg))).

(** Modelled from the spec: [cascadeProducer.ts] is missing.
    "send(message): reads message.retries (default 0 if absent).  If
    retries < len(RetryLevelList): publish message to
    RetryLevelList[retries], with retries incremented by 1 in the
    outgoing message's metadata.  Emit retry with the outgoing message.
    Else: ... the configured dead-letter callback; emit dlq with the
    message.  Publish failures are caught and re-emitted as error". *)
Definition send (msg : Message) : Prog unit :=
  Get (fun w =>
    let levels := producer_view w in
    if (retries_of msg <? List.length levels)%nat
    then
      try_catch
        (await (BrokerPublish (nth (retries_of msg) levels "") (outgoing msg)) ;;
         signal "retry" (ArgMessage (outgoing msg)))
        (fun error => signal "error" (ArgThrown error))
    else
      act (CalledBack DlqCB msg) ;;
      signal "dlq" (ArgMessage msg)).

End CascadeProducer.

(** ** Retry-level names and the resize both copies share *)

(** [this.topic + '-cascade-retry-' + (i+1)] *)
Definition retry_topic_name (t : string) (i : Z) : string :=
  (t ++ "-cascade-retry-") ++ number_to_string (i + 1).

(** [this.topicsArr.pop()] *)
Definition pop : Prog unit :=
  modify (fun w => set_topicsArr (removelast (topicsArr w)) w).

(** [this.topicsArr.push(name)] *)
Definition push (name : string) : Prog unit :=
  modify (fun w => set_topicsArr (topicsArr w ++ [name]) w).

(** [for (let i = 0; i < diff; i++) this.topicsArr.pop()], [n] rounds. *)
Fixpoint pop_loop (n : nat) : Prog unit :=
  match n with
  | O => Ret tt
  | S n' => pop ;; pop_loop n'
  end.

(** [for (let i = ...; i < count; i++) this.topicsArr.push(...)], [n]
    rounds from index [i]; the topic is read in every round. *)
Fixpoint push_loop (n : nat) (i : Z) : Prog unit :=
  match n with
  | O => Ret tt
  | S n' =>
      Get (fun w => push (retry_topic_name (topic w) i)) ;;
      push_loop n' (i + 1)
  end.

(** Lines 103-116 of [cascadeService.ts], identical to lines 60-73 of
    [part_000]: shrink by popping, or grow by pushing from index
    [this.retries]; hand the array object to the producer; record the
    count.  The shrink loop runs [length - count] times, the grow loop
    [count - this.retries] times (not at all when that is not
    positive).  Numbers are integers, computed exactly: what a double
    does to [i + 1] beyond 2^53 is outside this definition. *)
Definition resize (count : Z) : Prog unit :=
  Get (fun w =>
    if Z.of_nat (List.length (topicsArr w)) >? count
    then pop_loop (Z.to_nat (Z.of_nat (List.length (topicsArr w)) - count))
    else push_loop (Z.to_nat (count - retries w)) (retries w)) ;;
  CascadeProducer.setRetryTopics TopicsArrOfService ;;
  modify (set_retries count).

(** [new CascadeService(kafka, topic, ...)]: lines 54-55 (47-48 in
    [part_000]) and the fresh producer. *)
Definition constructor (t : string) : World :=
  mkWorld t 0 [] CascadeProducer.initial_retryTopics
          CascadeProducer.initial_paused [].

(** ** What is needed of CascadeConsumer *)

Module CascadeConsumer.

(** Modelled from the spec: [cascadeConsumer.ts] is missing.  "For every
    received message: invoke serviceCB(message, resolve, reject); on
    resolve(message) invoke onSuccess(message); on reject(message) invoke
    onFailure(message); if the service callback itself throws, emit a
    serviceError event and treat as failure.  Side effect: emits receive
    for every message prior to service invocation".  The service
    callback is the user's; how it ends for a message is the
    environment's choice at [ServiceCallback]. *)
Definition handle (onSuccess onFailure : Message -> Prog unit) (msg : Message)
  : Prog unit :=
  signal "receive" (ArgMessage msg) ;;
  Call (ServiceCallback msg) (fun o =>
    match o with
    | Fulfilled _ => onSuccess msg
    | RejectedWith _ => onFailure msg
    | ThrewSync e => signal "serviceError" (ArgThrown e) ;; onFailure msg
    end).

(** Modelled from the spec: [cascadeConsumer.ts] is missing.  The
    consume loop over the messages the broker delivers, one after the
    other; a handler that throws ends it. *)
Fixpoint consume (onSuccess onFailure : Message -> Prog unit)
         (msgs : list Message) : Prog unit :=
  match msgs with
  | [] => Ret tt
  | m :: rest =>
      handle onSuccess onFailure m ;; consume onSuccess onFailure rest
  end.

End CascadeConsumer.

(** ** src/kafka-cascade/src/cascadeService.ts *)

Module CascadeService.

(** Lines 31-44. *)
Definition events : list string :=
  [ "connect"; "disconnect"; "run"; "stop"; "pause"; "resume";
    "receive"; "success"; "retry"; "dlq"; "error"; "serviceError" ].

(** The [catch] block every lifecycle method ends with:
    [this.emit('error', '<prefix>' + error); reject(error)].  When the
    [emit] throws, [reject] is not reached. *)
Definition report (prefix : string) (error : Thrown) : Prog unit :=
  emit "error" (ArgText (prefix ++ String_of error)) ;;
  reject error.

(** Lines 69-82. *)
Definition connect : Prog unit :=
  try_catch
    (await ProducerConnect ;;
     await ConsumerConnect ;;
     emit "connect" NoArg ;;
     resolve VTrue)
    (report "Error in cascade.connect(): ").

(** Lines 84-98. *)
Definition disconnect : Prog unit :=
  try_catch
    (await ProducerStop ;;
     await ProducerDisconnect ;;
     await ConsumerDisconnect ;;
     emit "disconnect" NoArg ;;
     resolve VTrue)
    (report "Error in cascade.disconnect(): ").

(** Line 130: [.filter(topic => topic === this.topic ||
    topic.search(re) > -1)] on what [listTopics] fulfilled with.  On an
    array of strings it goes through; on anything else the runtime
    throws a [TypeError], at [.filter] or at [.search] (V8's wording for
    the code as written). *)
Definition filter_failure (listed : Value) : option Thrown :=
  match listed with
  | VTopics _ => None
  | VUndefined =>
      Some (TypeError "Cannot read properties of undefined (reading 'filter')")
  | VPair VUndefined _ =>
      Some (TypeError "Cannot read properties of undefined (reading 'search')")
  | VPair _ _ => Some (TypeError "topic.search is not a function")
  | _ => Some (TypeError "(intermediate value).filter is not a function")
  end.

Arguments filter_failure listed : simpl nomatch.

(** Lines 119-136: the admin client registers the topics; the promise
    resolves from a 10 ms timer.  The filtered list is printed only, and
    the printed list is left out of the log line. *)
Definition register_topics : Prog unit :=
  call KafkaAdmin ;;
  await AdminConnect ;;
  Get (fun w => await (AdminCreateTopics (topicsArr w))) ;;
  Get (fun w => call (NewRegExp ("^" ++ topic w ++ "-cascade-retry-.*"))) ;;
  listed <- await AdminListTopics ;;
  match filter_failure listed with
  | Some e => Throw e
  | None => console_log "topics registered ="
  end ;;
  await AdminDisconnect ;;
  Later 10 (console_log "Registered topics with Kafka..." ;; resolve VTrue).

(** Lines 100-143.  [options] is handed to the producer untouched and
    plays no part here. *)
Definition setRetryLevels (count : Z) : Prog unit :=
  try_catch
    (resize count ;; register_topics)
    (report "Error in cascade.setRetryLevels(): ").

(** Line 149: the success callback handed to [consumer.run]. *)
Definition success_path (msg : Message) : Prog unit :=
  emit "success" (ArgMessage msg) ;;
  act (CalledBack SuccessCB msg).

(** Lines 150-157: the failure callback handed to [consumer.run]. *)
Definition failure_path (msg : Message) : Prog unit :=
  try_catch
    (await (ProducerSend msg) ;; Ret tt)
    (fun error =>
       emit "error"
            (ArgText ("Error in cascade producer.send(): " ++ String_of error))).

(** Lines 145-166. *)
Definition run : Prog unit :=
  try_catch
    (status <- await ConsumerRun ;;
     emit "run" NoArg ;;
     resolve status)
    (report "Error in cascade.run(): ").

(** The consume loop [run] starts, with the two callbacks it wires. *)
Definition consume_loop (msgs : list Message) : Prog unit :=
  CascadeConsumer.consume success_path failure_path msgs.

(** Lines 168-182. *)
Definition stop : Prog unit :=
  try_catch
    (await ConsumerStop ;;
     await ProducerStop ;;
     emit "stop" NoArg ;;
     resolve VTrue)
    (report "Error in cascade.stop(): ").

(** Lines 184-201.  In the [else] branch the [async] method returns
    nothing, so its promise resolves with [undefined]. *)
Definition pause : Prog unit :=
  Get (fun w =>
    if negb (producer_paused w)
    then
      try_catch
        (await ConsumerPause ;;
         CascadeProducer.pause ;;
         emit "pause" NoArg ;;
         resolve VTrue)
        (report "Error in cascade.pause(): ")
    else
      console_log "cascade.pause() called while service is already paused!" ;;
      resolve VUndefined).

(** Lines 203-206. *)
Definition paused : Prog bool :=
  Get (fun w => Ret (producer_paused w)).

(** Lines 208-225. *)
Definition resume : Prog unit :=
  Get (fun w =>
    if producer_paused w
    then
      try_catch
        (await ConsumerResume ;;
         CascadeProducer.resume ;;
         emit "resume" NoArg ;;
         resolve VTrue)
        (report "Error in cascade.resume(): ")
    else
      console_log "cascade.resume() called while service is already running!" ;;
      resolve VUndefined).

(** Lines 227-230. *)
Definition on (event : string) (callback : Listener) : Prog unit :=
  if existsb (String.eqb event) events
  then modify (add_listener event callback)
  else Throw (NewError ("Unknown event: " ++ event)).

(** Lines 60-62: the listeners the constructor puts on the producer. *)
Definition relay_retry (msg : Message) : Prog unit :=
  emit "retry" (ArgMessage msg).

Definition relay_dlq (msg : Message) : Prog unit :=
  emit "dlq" (ArgMessage msg).

Definition relay_producer_error (error : Thrown) : Prog unit :=
  emit "error" (ArgText ("Error in cascade producer: " ++ String_of error)).

(** Lines 64-66: the listeners the constructor puts on the consumer. *)
Definition relay_receive (msg : Message) : Prog unit :=
  emit "receive" (ArgMessage msg).

Definition relay_serviceError (error : Thrown) : Prog unit :=
  emit "serviceError" (ArgThrown error).

Definition relay_consumer_error (error : Thrown) : Prog unit :=
  emit "error" (ArgText ("Error in cascade consumer: " ++ String_of error)).

End CascadeService.

(** ** src/unnamed/part_000 *)

Module Part000.

(** Lines 27-37. *)
Definition events : list string :=
  [ "run"; "stop"; "pause"; "resume"; "receive"; "success"; "retry";
    "dlq"; "error" ].

(** Lines 55-57: [Promise.all([this.producer.connect(),
    this.consumer.connect()])].  Both calls are made while the array
    literal is built; the promise handed back rejects with the first
    rejection and fulfils once both have.  Which of the two settles
    first is the broker's doing ([consumer_first]). *)
Definition connect (consumer_first : bool) : Prog unit :=
  call ProducerConnect ;;
  call ConsumerConnect ;;
  let first := if consumer_first then ConsumerConnect else ProducerConnect in
  let second := if consumer_first then ProducerConnect else ConsumerConnect in
  Settle first (fun o1 =>
    match o1 with
    | Fulfilled v1 =>
        Settle second (fun o2 =>
          match o2 with
          | Fulfilled v2 =>
              resolve (if consumer_first then VPair v2 v1 else VPair v1 v2)
          | RejectedWith e | ThrewSync e => reject e
          end)
    | RejectedWith e | ThrewSync e => reject e
    end).

(** Lines 59-74. *)
Definition setRetryLevels (count : Z) : Prog unit :=
  resize count.

(** Line 79: [this.successCB] is handed to the consumer as it is. *)
Definition success_path (msg : Message) : Prog unit :=
  act (CalledBack SuccessCB msg).

(** Lines 79-86: the call is not awaited; the [catch] logs. *)
Definition failure_path (msg : Message) : Prog unit :=
  try_catch
    (call (ProducerSend msg) ;; Ret tt)
    (fun error =>
       console_log ("Caught error in reject callback: " ++ String_of error)).

(** Lines 76-95. *)
Definition run : Prog unit :=
  try_catch
    (status <- await ConsumerRun ;;
     emit "run" NoArg ;;
     resolve status)
    (fun error => emit "error" (ArgThrown error) ;; reject error).

Definition consume_loop (msgs : list Message) : Prog unit :=
  CascadeConsumer.consume success_path failure_path msgs.

(** Lines 116-119. *)
Definition on (event : string) (callback : Listener) : Prog unit :=
  if existsb (String.eqb event) events
  then modify (add_listener event callback)
  else Throw (NewError ("Unknown event: " ++ event)).

(** Lines 97-100: the call on the consumer is commented out. *)
Definition stop : Prog unit := emit "stop" NoArg.

(** Lines 102-105. *)
Definition pause : Prog unit := emit "pause" NoArg.

(** Lines 107-109: an empty body. *)
Definition paused : Prog Value := Ret VUndefined.

(** Lines 111-114. *)
Definition resume : Prog unit := emit "resume" NoArg.

End Part000.

(** ** The event loop

    JavaScript runs one callback at a time.  A call runs on the caller's
    stack until its first [await]; what follows an [await] runs as a
    later turn of the event loop, and so does a timer callback.  Between
    two turns any other task may have had turns of its own. *)
Inductive Task : Type :=
| Fresh (p : Prog unit)
| Waiting (op : ExtOp) (k : Outcome -> Prog unit)
| Sleeping (k : Prog unit)
| Finished.

(** One uninterrupted stretch of a body: up to the next [await] or timer,
    or to the end. *)
Fixpoint segment (env : Env) (p : Prog unit) (w : World)
  : World * list Action * Task :=
  match p with
  | Ret _ => (w, [], Finished)
  | Throw _ => (w, [], Finished)
  | Get k => segment env (k w) w
  | Modify f k => segment env k (f w)
  | Do a k =>
      let '(w', acts, t) := segment env k w in (w', a :: acts, t)
  | Call op k =>
      let '(w', acts, t) := segment env (k (env op)) w in
      (w', Invoked op :: acts, t)
  | Settle op k => (w, [], Waiting op k)
  | Later ms k => (w, [TimerSet ms], Sleeping k)
  end.

(** One turn of a task. *)
Definition turn (env : Env) (t : Task) (w : World)
  : World * list Action * Task :=
  match t with
  | Fresh p => segment env p w
  | Waiting op k =>
      let '(w', acts, t') := segment env (k (env op)) w in
      (w', Settled op (env op) :: acts, t')
  | Sleeping k => segment env k w
  | Finished => (w, [], Finished)
  end.

Fixpoint replace_nth {A : Type} (i : nat) (x : A) (l : list A) : list A :=
  match l, i with
  | [], _ => []
  | _ :: rest, O => x :: rest
  | y :: rest, S i' => y :: replace_nth i' x rest
  end.

(** An interleaving is a schedule: which task gets the next turn, and
    what the collaborators do during it.  The result lists the fields as
    they stand at every switch between turns, first to last. *)
Fixpoint interleave (schedule : list (nat * Env)) (pool : list Task)
         (w : World) : list World :=
  match schedule with
  | [] => [w]
  | (i, env) :: rest =>
      match nth_error pool i with
      | None => w :: interleave rest pool w
      | Some t =>
          let '(w', _, t') := turn env t w in
          w :: interleave rest (replace_nth i t' pool) w'
      end
  end.

(** ** Vocabulary of the statements *)

(** The retry-level names for [n] levels: entry [i] (0-based) is
    [<topic>-cascade-retry-<i+1>]. *)
Definition level_names (t : string) (n : nat) : list string :=
  map (fun i =>
         (t ++ "-cascade-retry-" ++ number_to_string (Z.of_nat i + 1))%string)
      (seq 0 n).

(** The service holds exactly the [n] level names and the counter agrees. *)
Definition levels_are (t : string) (n : nat) (w : World) : Prop :=
  topic w = t /\ retries w = Z.of_nat n /\ topicsArr w = level_names t n.

(** The list the producer routes against is whole: names [1..n] for the
    [n] the service last recorded. *)
Definition whole_list (t : string) (n : nat) (w : World) : Prop :=
  levels_are t n w /\ producer_view w = level_names t n.

(** A field update that leaves the retry levels alone. *)
Definition keeps_levels (f : World -> World) : Prop :=
  forall w,
    topic (f w) = topic w /\ retries (f w) = retries w /\
    topicsArr (f w) = topicsArr w /\
    producer_retryTopics (f w) = producer_retryTopics w.

(** A body that never writes the retry levels. *)
Fixpoint quiet {A : Type} (p : Prog A) : Prop :=
  match p with
  | Ret _ => True
  | Throw _ => True
  | Get k => forall w, quiet (k w)
  | Modify f k => keeps_levels f /\ quiet k
  | Do _ k => quiet k
  | Call _ k => forall o, quiet (k o)
  | Settle _ k => forall o, quiet (k o)
  | Later _ k => quiet k
  end.

Definition quiet_task (t : Task) : Prop :=
  match t with
  | Fresh p => quiet p
  | Waiting _ k => forall o, quiet (k o)
  | Sleeping k => quiet k
  | Finished => True
  end.

(** A body made of field reads and writes only. *)
Fixpoint state_only {A : Type} (p : Prog A) : Prop :=
  match p with
  | Ret _ => True
  | Get k => forall w, state_only (k w)
  | Modify _ k => state_only k
  | _ => False
  end.

(** Every action satisfying [later] has one satisfying [earlier] before
    it in the list. *)
Fixpoint preceded (earlier later : Action -> bool) (seen : bool)
         (acts : list Action) : bool :=
  match acts with
  | [] => true
  | a :: rest =>
      (if later a then seen else true) &&
      preceded earlier later (seen || earlier a) rest
  end.

Definition always_after (earlier later : Action -> bool)
           (acts : list Action) : Prop :=
  forall before a rest,
    acts = before ++ a :: rest -> later a = true ->
    exists b, In b before /\ earlier b = true.

Definition begins_consumer_connect (a : Action) : bool :=
  match a with Invoked ConsumerConnect => true | _ => false end.

Definition completes_producer_connect (a : Action) : bool :=
  match a with Settled ProducerConnect (Fulfilled _) => true | _ => false end.

Definition completes_consumer_connect (a : Action) : bool :=
  match a with Settled ConsumerConnect (Fulfilled _) => true | _ => false end.

Definition emits (event : string) (a : Action) : bool :=
  match a with Emitted e _ => String.eqb e event | _ => false end.

Definition is_settlement (a : Action) : bool :=
  match a with Resolved _ | Rejected _ => true | _ => false end.

(** The state after a sequence of [setRetryLevels] calls, each with the
    environment it met. *)
Fixpoint after_calls (calls : list (nat * Env)) (w : World) : World :=
  match calls with
  | [] => w
  | (count, env) :: rest =>
      after_calls rest
        (final (exec env (CascadeService.setRetryLevels (Z.of_nat count)) w))
  end.

Fixpoint after_calls_part000 (calls : list nat) (w : World) : World :=
  match calls with
  | [] => w
  | count :: rest =>
      after_calls_part000 rest
        (final (exec (fun _ => Fulfilled VUndefined)
                     (Part000.setRetryLevels (Z.of_nat count)) w))
  end.

(** What the specification calls [UnknownEventError]: the [Error] that
    [on] builds, [new Error('Unknown event: ' + event)]. *)
Definition UnknownEventError (event : string) : Thrown :=
  NewError ("Unknown event: " ++ event).

(** An environment in which nothing fails: every call fulfils, and
    [listTopics] with an array. *)
Definition agreeable : Env :=
  fun op =>
    match op with
    | AdminListTopics => Fulfilled (VTopics [])
    | _ => Fulfilled VTrue
    end.

(** The lifecycle operations of [cascadeService.ts] that hand back a
    promise built around a [try]/[catch]. *)
Inductive Lifecycle : Type :=
| LConnect
| LDisconnect
| LSetRetryLevels (count : Z)
| LRun
| LStop.

Definition lifecycle_body (m : Lifecycle) : Prog unit :=
  match m with
  | LConnect => CascadeService.connect
  | LDisconnect => CascadeService.disconnect
  | LSetRetryLevels count => CascadeService.setRetryLevels count
  | LRun => CascadeService.run
  | LStop => CascadeService.stop
  end.

Definition lifecycle_name (m : Lifecycle) : string :=
  match m with
  | LConnect => "connect"
  | LDisconnect => "disconnect"
  | LSetRetryLevels _ => "setRetryLevels"
  | LRun => "run"
  | LStop => "stop"
  end.

(** Whether a sub-operation the service reached has failed, and with
    what: [kafka.admin()] and [new RegExp] are plain calls, everything
    else is awaited. *)
Definition failed (env : Env) (op : ExtOp) : option Thrown :=
  match op with
  | KafkaAdmin => call_failure (env op)
  | NewRegExp _ => call_failure (env op)
  | _ => await_failure (env op)
  end.

(** What a callback lets the outside see apart from its calls on
    collaborators: events, log lines, user callbacks, settlements. *)
Definition is_call (a : Action) : bool :=
  match a with
  | Invoked _ => true
  | Settled _ _ => true
  | _ => false
  end.

Definition surfaced (acts : list Action) : list Action :=
  filter (fun a => negb (is_call a)) acts.

(** The messages for which [receive] was emitted, in order. *)
Definition received (acts : list Action) : list Message :=
  flat_map (fun a =>
              match a with
              | Emitted e (ArgMessage m) =>
                  if String.eqb e "receive" then [m] else []
              | _ => []
              end) acts.

(** The [success] events and success-callback invocations, in order. *)
Definition on_success (a : Action) : bool :=
  match a with
  | Emitted e _ => String.eqb e "success"
  | CalledBack SuccessCB _ => true
  | _ => false
  end.

(** The messages the user's service callback resolves. *)
Definition succeeded (env : Env) (msgs : list Message) : list Message :=
  filter (fun m =>
            match env (ServiceCallback m) with
            | Fulfilled _ => true
            | _ => false
            end) msgs.

(** A callback that, called in the state [w], hands control back
    without throwing. *)
Definition returns_normally (env : Env) (cb : Message -> Prog unit)
           (w : World) : Prop :=
  forall m, outcome (exec env (cb m) w) = inr tt.

(** A callback that, called in the state [w], touches no field and
    emits no [receive]. *)
Definition stays_aside (env : Env) (cb : Message -> Prog unit)
           (w : World) : Prop :=
  forall m,
    final (exec env (cb m) w) = w /\
    received (actions (exec env (cb m) w)) = [].

(** A fresh service on which one [error] listener has been put. *)
Definition listening (t : string) : World :=
  add_listener "error" 0%nat (constructor t).

(** Brokers used in the examples. *)
Definition consumer_unreachable : Env :=
  fun op =>
    match op with
    | ConsumerConnect => RejectedWith (Foreign "broker down")
    | _ => Fulfilled VTrue
    end.

Definition send_throws : Env :=
  fun op =>
    match op with
    | ProducerSend _ => ThrewSync (Foreign "boom")
    | ServiceCallback _ => RejectedWith (Foreign "not today")
    | _ => Fulfilled VTrue
    end.

Definition first_delivery : Message := mkMessage 0 "order-17" None.
Definition second_delivery : Message := mkMessage 1 "order-18" None.

(** A task of the pool in the atomicity statement: a [setRetryLevels]
    call with one of the given counts, a [send], or any other body that
    leaves the retry levels alone. *)
Definition resize_or_reader (counts : list nat) (task : Task) : Prop :=
  (exists c, In c counts /\
             task = Fresh (CascadeService.setRetryLevels (Z.of_nat c))) \/
  (exists msg, task = Fresh (CascadeProducer.send msg)) \/
  (exists p, task = Fresh p /\ quiet p).

(** The list in the state [w] is whole for one of the counts asked for. *)
Definition whole_for (t : string) (counts : list nat) (w : World) : Prop :=
  exists n, In n counts /\ whole_list t n w.

(** ** The demo controller's counters

    [cascadeService.ts] lines 249-267 (the controller that follows the
    class in that file). *)

Module Controller.

(** A JavaScript number as far as a counter goes. *)
Inductive JsNumber : Type :=
| Num (z : Z)
| NaN.

(** An array of numbers; [None] is a hole, which reads as [undefined]. *)
Definition Counters : Type := list (option JsNumber).

(** Line 249. *)
Definition retryLevels : nat := 5.

(** Line 250: [(new Array(retryLevels+1)).fill(0)]. *)
Definition levelCounts : Counters := repeat (Some (Num 0)) (retryLevels + 1).

(** [x++] on what the slot holds: [undefined + 1] and [NaN + 1] are
    [NaN]. *)
Definition increment (cell : option JsNumber) : option JsNumber :=
  match cell with
  | Some (Num z) => Some (Num (z + 1))
  | Some NaN => Some NaN
  | None => Some NaN
  end.

(** [counts[i]++] for an index [i >= 0]: writing past the end grows the
    array, leaving holes. *)
Fixpoint bump (i : nat) (counts : Counters) : Counters :=
  match i, counts with
  | O, [] => [increment None]
  | O, cell :: rest => increment cell :: rest
  | S i', [] => None :: bump i' []
  | S i', cell :: rest => cell :: bump i' rest
  end.

(** Lines 261-264.  [getMetadata] comes from the package index, which is
    not in the tree; the [retries] it reads off the message is the
    argument here. *)
Definition successCB (retries : nat) (counts : Counters) : Counters :=
  bump retries counts.

(** Lines 265-267: [levelCounts[levelCounts.length - 1]++].  On an empty
    array the index is [-1], which names no element. *)
Definition dlqCB (counts : Counters) : Counters :=
  match List.length counts with
  | O => counts
  | S last => bump last counts
  end.

(** What the service reports to the controller about one message. *)
Inductive Routed : Type :=
| Succeeded (retries : nat)
| DeadLettered.

Definition record (counts : Counters) (r : Routed) : Counters :=
  match r with
  | Succeeded retries => successCB retries counts
  | DeadLettered => dlqCB counts
  end.

Definition tally (history : list Routed) : Counters :=
  fold_left record history levelCounts.

(** The sum of the slots that hold numbers, and whether all of them do. *)
Fixpoint total (counts : Counters) : Z :=
  match counts with
  | [] => 0
  | Some (Num z) :: rest => z + total rest
  | _ :: rest => total rest
  end.

Definition is_number (cell : option JsNumber) : bool :=
  match cell with
  | Some (Num _) => true
  | _ => false
  end.

Definition within_levels (r : Routed) : bool :=
  match r with
  | Succeeded retries => (retries <=? retryLevels)%nat
  | DeadLettered => true
  end.

(** Whether a report is counted in slot [j]. *)
Definition lands_on (j : nat) (r : Routed) : bool :=
  match r with
  | Succeeded retries => (retries =? j)%nat
  | DeadLettered => (j =? retryLevels)%nat
  end.

End Controller.

(** ** More vocabulary *)

(** The methods of the class in [cascadeService.ts], the two callbacks
    [run] wires and the six listeners the constructor registers. *)
Inductive Method : Type :=
| MLifecycle (m : Lifecycle)
| MPause
| MResume
| MOn (event : string) (callback : Listener)
| MSuccessPath (msg : Message)
| MFailurePath (msg : Message)
| MRelayRetry (msg : Message)
| MRelayDlq (msg : Message)
| MRelayProducerError (error : Thrown)
| MRelayReceive (msg : Message)
| MRelayServiceError (error : Thrown)
| MRelayConsumerError (error : Thrown).

Definition method_body (m : Method) : Prog unit :=
  match m with
  | MLifecycle l => lifecycle_body l
  | MPause => CascadeService.pause
  | MResume => CascadeService.resume
  | MOn event callback => CascadeService.on event callback
  | MSuccessPath msg => CascadeService.success_path msg
  | MFailurePath msg => CascadeService.failure_path msg
  | MRelayRetry msg => CascadeService.relay_retry msg
  | MRelayDlq msg => CascadeService.relay_dlq msg
  | MRelayProducerError e => CascadeService.relay_producer_error e
  | MRelayReceive msg => CascadeService.relay_receive msg
  | MRelayServiceError e => CascadeService.relay_serviceError e
  | MRelayConsumerError e => CascadeService.relay_consumer_error e
  end.

(** The methods of the class in [part_000] and the two callbacks its
    [run] wires. *)
Inductive Part000Method : Type :=
| PConnect (consumer_first : bool)
| PSetRetryLevels (count : Z)
| PRun
| PStop
| PPause
| PResume
| POn (event : string) (callback : Listener)
| PSuccessPath (msg : Message)
| PFailurePath (msg : Message).

Definition part000_body (m : Part000Method) : Prog unit :=
  match m with
  | PConnect consumer_first => Part000.connect consumer_first
  | PSetRetryLevels count => Part000.setRetryLevels count
  | PRun => Part000.run
  | PStop => Part000.stop
  | PPause => Part000.pause
  | PResume => Part000.resume
  | POn event callback => Part000.on event callback
  | PSuccessPath msg => Part000.success_path msg
  | PFailurePath msg => Part000.failure_path msg
  end.

(** The names of the events in a list of actions, the collaborator
    operations called, and the settlements, each in order. *)
Definition emitted_names (acts : list Action) : list string :=
  flat_map (fun a => match a with Emitted e _ => [e] | _ => [] end) acts.

Definition invocations (acts : list Action) : list ExtOp :=
  flat_map (fun a => match a with Invoked op => [op] | _ => [] end) acts.

Definition settlements (acts : list Action) : list Action :=
  filter is_settlement acts.

(** An [error] event whose argument is a text opening with
    ["Error in cascade"]; any other event passes. *)
Definition qualified_if_error (a : Action) : bool :=
  match a with
  | Emitted e arg =>
      if String.eqb e "error"
      then match arg with
           | ArgText s => String.prefix "Error in cascade" s
           | _ => false
           end
      else true
  | _ => true
  end.

(** A body that writes no field at all. *)
Fixpoint reads_only {A : Type} (p : Prog A) : Prop :=
  match p with
  | Ret _ => True
  | Throw _ => True
  | Get k => forall w, reads_only (k w)
  | Modify _ _ => False
  | Do _ k => reads_only k
  | Call _ k => forall o, reads_only (k o)
  | Settle _ k => forall o, reads_only (k o)
  | Later _ k => reads_only k
  end.

(** Begin and successful end of the collaborator operations the
    teardown methods and the pause pair go through. *)
Definition begins (which : ExtOp -> bool) (a : Action) : bool :=
  match a with Invoked op => which op | _ => false end.

Definition completes (which : ExtOp -> bool) (a : Action) : bool :=
  match a with Settled op (Fulfilled _) => which op | _ => false end.

Definition is_ProducerStop (op : ExtOp) : bool :=
  match op with ProducerStop => true | _ => false end.
Definition is_ProducerDisconnect (op : ExtOp) : bool :=
  match op with ProducerDisconnect => true | _ => false end.
Definition is_ConsumerDisconnect (op : ExtOp) : bool :=
  match op with ConsumerDisconnect => true | _ => false end.
Definition is_ConsumerStop (op : ExtOp) : bool :=
  match op with ConsumerStop => true | _ => false end.
Definition is_ConsumerPause (op : ExtOp) : bool :=
  match op with ConsumerPause => true | _ => false end.
Definition is_ProducerPause (op : ExtOp) : bool :=
  match op with ProducerPause => true | _ => false end.
Definition is_ConsumerResume (op : ExtOp) : bool :=
  match op with ConsumerResume => true | _ => false end.
Definition is_ProducerResume (op : ExtOp) : bool :=
  match op with ProducerResume => true | _ => false end.
Definition is_AdminDisconnect (op : ExtOp) : bool :=
  match op with AdminDisconnect => true | _ => false end.

(** The calls [setRetryLevels(N)] makes for a topic [t], in order, when
    nothing stops it. *)
Definition provisioning_calls (t : string) (N : nat) : list ExtOp :=
  [ KafkaAdmin; AdminConnect; AdminCreateTopics (level_names t N);
    NewRegExp ("^" ++ t ++ "-cascade-retry-.*");
    AdminListTopics; AdminDisconnect ].

(** An admin client that connects and then fails to create topics. *)
Definition create_topics_fails : Env :=
  fun op =>
    match op with
    | AdminCreateTopics _ => RejectedWith (Foreign "not a controller")
    | _ => Fulfilled VTrue
    end.

(** An admin client whose [listTopics] fulfils with [undefined]. *)
Definition lists_no_array : Env :=
  fun op =>
    match op with
    | AdminListTopics => Fulfilled VUndefined
    | _ => Fulfilled VTrue
    end.

Definition consumer_pause_fails : Env :=
  fun op =>
    match op with
    | ConsumerPause => RejectedWith (Foreign "no assignment")
    | _ => Fulfilled VTrue
    end.

(** The fields after a series of [on] calls, each made on its own (a
    call that throws is over and the next one is made all the same). *)
Fixpoint after_subscriptions (calls : list (string * Listener)) (w : World)
  : World :=
  match calls with
  | [] => w
  | (event, callback) :: rest =>
      after_subscriptions rest
        (final (exec agreeable (CascadeService.on event callback) w))
  end.

Definition recognized (call : string * Listener) : bool :=
  existsb (String.eqb (fst call)) CascadeService.events.

(** Which methods are expected to write which fields. *)
Definition is_setRetryLevels (m : Method) : bool :=
  match m with MLifecycle (LSetRetryLevels _) => true | _ => false end.

Definition is_pause_or_resume (m : Method) : bool :=
  match m with MPause | MResume => true | _ => false end.

Definition is_on (m : Method) : bool :=
  match m with MOn _ _ => true | _ => false end.

(** Where [setRetryLevels] goes no further: at an operation that
    fails, and at [listTopics] when line 130 cannot filter what it
    fulfilled with. *)
Definition halts (env : Env) (op : ExtOp) : bool :=
  match failed env op with
  | Some _ => true
  | None =>
      match op, env op with
      | AdminListTopics, Fulfilled listed =>
          match CascadeService.filter_failure listed with
          | Some _ => true
          | None => false
          end
      | _, _ => false
      end
  end.

(** The operations of a list up to and including the first at which
    [stop] holds. *)
Fixpoint upto_first (stop : ExtOp -> bool) (ops : list ExtOp) : list ExtOp :=
  match ops with
  | [] => []
  | op :: rest => op :: (if stop op then [] else upto_first stop rest)
  end.

(** The largest magnitude up to which every integer is a double, and
    the largest length an array can have. *)
Definition max_safe : Z := 2 ^ 53.
Definition max_array_length : Z := 2 ^ 32 - 1.

(** * Proofs *)

(** ** Running programs *)

Lemma exec_bind {A B : Type} (env : Env) (p : Prog A) (f : A -> Prog B) :
  forall w,
    exec env (bind p f) w =
    match outcome (exec env p w) with
    | inl e => (final (exec env p w), actions (exec env p w), inl e)
    | inr a =>
        (final (exec env (f a) (final (exec env p w))),
         actions (exec env p w) ++
           actions (exec env (f a) (final (exec env p w))),
         outcome (exec env (f a) (final (exec env p w))))
    end.
Proof.
  unfold final, actions, outcome.
  induction p as [a | e | k IH | g k IH | a k IH | op k IH | op k IH | ms k IH];
    intros w; simpl.
  - destruct (exec env (f a) w) as [[w' acts] r]; reflexivity.
  - reflexivity.
  - apply IH.
  - apply IH.
  - rewrite IH. destruct (exec env k w) as [[w' acts] [e | x]]; reflexivity.
  - rewrite IH.
    destruct (exec env (k (env op)) w) as [[w' acts] [e | x]]; reflexivity.
  - rewrite IH.
    destruct (exec env (k (env op)) w) as [[w' acts] [e | x]]; reflexivity.
  - rewrite IH. destruct (exec env k w) as [[w' acts] [e | x]]; reflexivity.
Qed.

Lemma state_only_bind {A B : Type} (p : Prog A) (f : A -> Prog B) :
  state_only p -> (forall a, state_only (f a)) -> state_only (bind p f).
Proof.
  induction p as [a | e | k IH | g k IH | a k IH | op k IH | op k IH | ms k IH];
    simpl; intros H Hf; try contradiction; auto.
Qed.

(** ** Strings and level names *)

Lemma append_assoc (a b c : string) :
  ((a ++ b) ++ c = a ++ b ++ c)%string.
Proof.
  induction a as [| ch a IH]; simpl; [reflexivity | now rewrite IH].
Qed.

Lemma retry_topic_name_level (t : string) (i : nat) :
  retry_topic_name t (Z.of_nat i) =
  (t ++ "-cascade-retry-" ++ number_to_string (Z.of_nat i + 1))%string.
Proof. unfold retry_topic_name. apply append_assoc. Qed.

Lemma level_names_length (t : string) (n : nat) :
  List.length (level_names t n) = n.
Proof. unfold level_names. now rewrite length_map, length_seq. Qed.

Lemma level_names_S (t : string) (n : nat) :
  level_names t (S n) = level_names t n ++ [retry_topic_name t (Z.of_nat n)].
Proof.
  unfold level_names. rewrite seq_S, map_app. simpl.
  now rewrite retry_topic_name_level.
Qed.

Lemma level_names_firstn (t : string) (n c : nat) :
  (c <= n)%nat -> firstn c (level_names t n) = level_names t c.
Proof.
  induction n as [| n IH]; intros H.
  - replace c with O by lia. reflexivity.
  - destruct (Nat.eq_dec c (S n)) as [-> | Hne].
    + apply firstn_all2. rewrite level_names_length. lia.
    + rewrite level_names_S, firstn_app, level_names_length.
      replace (c - n)%nat with O by lia.
      simpl. rewrite app_nil_r. apply IH. lia.
Qed.

Lemma level_names_nth (t : string) (n i : nat) :
  (i < n)%nat ->
  nth_error (level_names t n) i =
  Some (t ++ "-cascade-retry-" ++ number_to_string (Z.of_nat i + 1))%string.
Proof.
  intros H. unfold level_names.
  rewrite nth_error_map, nth_error_seq.
  destruct (Nat.ltb_spec i n) as [_ | Hge]; [reflexivity | lia].
Qed.

Lemma level_names_grow (t : string) (n d : nat) :
  level_names t n ++
  map (fun j => retry_topic_name t (Z.of_nat n + Z.of_nat j)) (seq 0 d) =
  level_names t (n + d).
Proof.
  induction d as [| d IH].
  - rewrite Nat.add_0_r. simpl. apply app_nil_r.
  - rewrite Nat.add_succ_r, level_names_S, <- IH, seq_S, map_app.
    rewrite <- app_assoc. simpl.
    now rewrite Nat2Z.inj_add.
Qed.

(** ** The two loops *)

Lemma removelast_iter {A : Type} (n : nat) :
  forall l : list A,
    Nat.iter n (@removelast A) l = firstn (List.length l - n) l.
Proof.
  induction n as [| n IH]; intros l.
  - simpl. now rewrite Nat.sub_0_r, firstn_all.
  - simpl. rewrite IH, removelast_firstn_len, firstn_firstn, length_firstn.
    f_equal. lia.
Qed.

Lemma pop_loop_exec (env : Env) (n : nat) :
  forall w,
    exec env (pop_loop n) w =
    (set_topicsArr (Nat.iter n (@removelast string) (topicsArr w)) w,
     [], inr tt).
Proof.
  induction n as [| n IH]; intros w.
  - destruct w; reflexivity.
  - simpl. rewrite IH. unfold set_topicsArr; simpl.
    now rewrite <- Nat.iter_succ_r.
Qed.

Lemma push_loop_exec (env : Env) (n : nat) :
  forall (i : Z) (w : World),
    exec env (push_loop n i) w =
    (set_topicsArr
       (topicsArr w ++
        map (fun j => retry_topic_name (topic w) (i + Z.of_nat j)) (seq 0 n)) w,
     [], inr tt).
Proof.
  induction n as [| n IH]; intros i w.
  - simpl. rewrite app_nil_r. destruct w; reflexivity.
  - cbn [push_loop bind push modify]. simpl exec. rewrite IH.
    unfold set_topicsArr; simpl. rewrite <- app_assoc. simpl.
    rewrite Z.add_0_r, <- seq_shift, map_map.
    rewrite (map_ext (fun j => retry_topic_name (topic w) (i + 1 + Z.of_nat j))
                     (fun j => retry_topic_name (topic w) (i + Z.of_nat (S j))));
      [reflexivity |].
    intros j. f_equal. lia.
Qed.

(** ** The resize *)

(** From a state holding levels [1..n], the shared resize leaves levels
    [1..c], the counter at [c], and the producer pointing at the
    service's own array. *)
Lemma resize_exec (env : Env) (t : string) (n c : nat) (w : World) :
  levels_are t n w ->
  exec env (resize (Z.of_nat c)) w =
  (mkWorld t (Z.of_nat c) (level_names t c) TopicsArrOfService
           (producer_paused w) (listeners w),
   [], inr tt).
Proof.
  intros (Ht & Hr & Ha).
  unfold resize. cbn [bind]. cbn [exec].
  rewrite exec_bind.
  rewrite Ha, level_names_length, Hr.
  destruct (Z.gtb_spec (Z.of_nat n) (Z.of_nat c)) as [Hgt | Hle].
  - rewrite pop_loop_exec. unfold outcome, final, actions; simpl.
    rewrite Ha, removelast_iter, level_names_length.
    rewrite level_names_firstn by lia.
    replace (n - Z.to_nat (Z.of_nat n - Z.of_nat c))%nat with c by lia.
    unfold set_retries, set_producer_retryTopics, set_topicsArr; simpl.
    rewrite Ht. reflexivity.
  - rewrite push_loop_exec. unfold outcome, final, actions; simpl.
    rewrite Ha, Ht.
    replace (Z.to_nat (Z.of_nat c - Z.of_nat n)) with (c - n)%nat by lia.
    rewrite level_names_grow.
    replace (n + (c - n))%nat with c by lia.
    unfold set_retries, set_producer_retryTopics, set_topicsArr; simpl.
    rewrite Ht. reflexivity.
Qed.

(** The resize leaves the listener table alone. *)
Lemma resize_listeners (env : Env) (count : Z) (w : World) :
  listeners (final (exec env (resize count) w)) = listeners w.
Proof.
  unfold resize. cbn [bind]. cbn [exec]. rewrite exec_bind.
  destruct (Z.of_nat (List.length (topicsArr w)) >? count).
  - rewrite pop_loop_exec. reflexivity.
  - rewrite push_loop_exec. reflexivity.
Qed.

Lemma resize_state_only (count : Z) : state_only (resize count).
Proof.
  assert (Hpop : forall n, state_only (pop_loop n)).
  { induction n as [| n IH]; simpl; auto. }
  assert (Hpush : forall n i, state_only (push_loop n i)).
  { induction n as [| n IH]; intros i; simpl; auto. }
  unfold resize. simpl. intros w.
  apply state_only_bind; [| intros; simpl; auto].
  destruct (Z.of_nat (List.length (topicsArr w)) >? count); auto.
Qed.

(** A [try] block that opens with reads and writes runs them, then the
    rest under the same handler. *)
Lemma exec_try_state_only (env : Env) (p q : Prog unit)
      (h : Thrown -> Prog unit) :
  state_only p ->
  forall w,
    exec env (try_catch (p ;; q) h) w =
    exec env (try_catch q h) (final (exec env p w)).
Proof.
  unfold final.
  induction p as [a | e | k IH | g k IH | a k IH | op k IH | op k IH | ms k IH];
    simpl; intros H w; try contradiction.
  - reflexivity.
  - apply IH, H.
  - apply IH, H.
Qed.

Lemma segment_try_state_only (env : Env) (p q : Prog unit)
      (h : Thrown -> Prog unit) :
  state_only p ->
  forall w,
    segment env (try_catch (p ;; q) h) w =
    segment env (try_catch q h) (final (exec env p w)).
Proof.
  unfold final.
  induction p as [a | e | k IH | g k IH | a k IH | op k IH | op k IH | ms k IH];
    simpl; intros H w; try contradiction.
  - reflexivity.
  - apply IH, H.
  - apply IH, H.
Qed.

(** ** Bodies that leave the levels alone *)

Lemma quiet_bind {A B : Type} (p : Prog A) (f : A -> Prog B) :
  quiet p -> (forall a, quiet (f a)) -> quiet (bind p f).
Proof.
  induction p as [a | e | k IH | g k IH | a k IH | op k IH | op k IH | ms k IH];
    simpl; intros H Hf; auto.
  destruct H; auto.
Qed.

Lemma quiet_try_catch {A : Type} (p : Prog A) (h : Thrown -> Prog A) :
  quiet p -> (forall e, quiet (h e)) -> quiet (try_catch p h).
Proof.
  induction p as [a | e | k IH | g k IH | a k IH | op k IH | op k IH | ms k IH];
    simpl; intros H Hh; auto.
  destruct H; auto.
Qed.

Lemma quiet_await (op : ExtOp) : quiet (await op).
Proof.
  simpl. intros [v | e | e]; simpl; auto;
    intros [v' | e' | e']; simpl; auto.
Qed.

Lemma quiet_call (op : ExtOp) : quiet (call op).
Proof. simpl. intros [v | e | e]; simpl; auto. Qed.

Lemma quiet_act (a : Action) : quiet (act a).
Proof. simpl. auto. Qed.

Lemma quiet_emit (event : string) (arg : EventArg) : quiet (emit event arg).
Proof.
  unfold emit. cbn [quiet]. intros w.
  destruct (String.eqb event "error" && negb (heard "error" (listeners w)));
    simpl; auto.
Qed.

Lemma quiet_signal (event : string) (arg : EventArg) :
  quiet (signal event arg).
Proof. simpl. auto. Qed.

Create HintDb quiet.
#[local] Hint Resolve quiet_bind quiet_try_catch quiet_await quiet_call
  quiet_act quiet_emit quiet_signal : quiet.

Lemma quiet_report (prefix : string) (e : Thrown) :
  quiet (CascadeService.report prefix e).
Proof. unfold CascadeService.report, reject. auto with quiet. Qed.

Lemma quiet_register_topics : quiet CascadeService.register_topics.
Proof.
  unfold CascadeService.register_topics, console_log, resolve.
  repeat (apply quiet_bind; [| intros ?]);
    try (cbn [quiet]; intros; auto with quiet).
  destruct (CascadeService.filter_failure _); simpl; auto.
Qed.

Lemma quiet_send (msg : Message) : quiet (CascadeProducer.send msg).
Proof.
  unfold CascadeProducer.send. cbn [quiet]. intros w.
  destruct (CascadeProducer.retries_of msg
              <? List.length (producer_view w))%nat.
  - apply quiet_try_catch.
    + auto with quiet.
    + intros e. auto with quiet.
  - auto with quiet.
Qed.

(** Running a quiet body changes none of the four fields. *)
Lemma quiet_exec {A : Type} (env : Env) (p : Prog A) :
  quiet p ->
  forall w,
    topic (final (exec env p w)) = topic w /\
    retries (final (exec env p w)) = retries w /\
    topicsArr (final (exec env p w)) = topicsArr w /\
    producer_retryTopics (final (exec env p w)) = producer_retryTopics w.
Proof.
  unfold final.
  induction p as [a | e | k IH | g k IH | a k IH | op k IH | op k IH | ms k IH];
    simpl; intros H w; auto.
  - destruct H as [Hg Hk]. specialize (IH Hk (g w)).
    destruct (Hg w) as (E1 & E2 & E3 & E4).
    rewrite <- E1, <- E2, <- E3, <- E4. exact IH.
  - specialize (IH H w). destruct (exec env k w) as [[w' acts] r]. exact IH.
  - specialize (IH (env op) (H (env op)) w).
    destruct (exec env (k (env op)) w) as [[w' acts] r]. exact IH.
  - specialize (IH (env op) (H (env op)) w).
    destruct (exec env (k (env op)) w) as [[w' acts] r]. exact IH.
  - specialize (IH H w). destruct (exec env k w) as [[w' acts] r]. exact IH.
Qed.

Lemma whole_list_fields (t : string) (n : nat) (w w' : World) :
  whole_list t n w ->
  topic w' = topic w -> retries w' = retries w ->
  topicsArr w' = topicsArr w ->
  producer_retryTopics w' = producer_retryTopics w ->
  whole_list t n w'.
Proof.
  intros [(Ht & Hr & Ha) Hv] E1 E2 E3 E4.
  unfold whole_list, levels_are, producer_view in *.
  rewrite E1, E2, E3, E4. auto.
Qed.

(** [setRetryLevels(c)] from levels [1..n]: whatever the admin client
    does, the service and the producer end with levels [1..c]. *)
Lemma setRetryLevels_whole (env : Env) (t : string) (n c : nat) (w : World) :
  levels_are t n w ->
  whole_list t c
    (final (exec env (CascadeService.setRetryLevels (Z.of_nat c)) w)).
Proof.
  intros H. unfold CascadeService.setRetryLevels.
  rewrite exec_try_state_only by apply resize_state_only.
  rewrite (resize_exec env t n c w H). unfold final at 2. simpl fst.
  set (w1 := mkWorld _ _ _ _ _ _).
  assert (Hq : quiet (try_catch CascadeService.register_topics
                (CascadeService.report "Error in cascade.setRetryLevels(): "))).
  { apply quiet_try_catch; [apply quiet_register_topics |].
    intros e. apply quiet_report. }
  destruct (quiet_exec env _ Hq w1) as (E1 & E2 & E3 & E4).
  apply (whole_list_fields t c w1); auto.
  unfold w1, whole_list, levels_are, producer_view; simpl. auto.
Qed.

Lemma part000_setRetryLevels_whole (env : Env) (t : string) (n c : nat)
      (w : World) :
  levels_are t n w ->
  whole_list t c (final (exec env (Part000.setRetryLevels (Z.of_nat c)) w)).
Proof.
  intros H. unfold Part000.setRetryLevels.
  rewrite (resize_exec env t n c w H).
  unfold final, whole_list, levels_are, producer_view; simpl. auto.
Qed.

Lemma constructor_levels (t : string) : levels_are t 0 (constructor t).
Proof. unfold levels_are, constructor; simpl. auto. Qed.

Lemma last_cons {A : Type} (l : list A) :
  forall a d : A, last (a :: l) d = last l a.
Proof.
  induction l as [| b l IH]; intros a d; [reflexivity |].
  change (last (a :: b :: l) d) with (last (b :: l) d).
  now rewrite !IH.
Qed.

Lemma after_calls_levels (t : string) (calls : list (nat * Env)) :
  forall (n : nat) (w : World),
    levels_are t n w ->
    levels_are t (last (map fst calls) n) (after_calls calls w).
Proof.
  induction calls as [| [c env] rest IH]; intros n w H.
  - exact H.
  - pose proof (setRetryLevels_whole env t n c w H) as [Hl _].
    cbn [after_calls map fst]. rewrite last_cons. apply IH, Hl.
Qed.

Lemma after_calls_part000_levels (t : string) (calls : list nat) :
  forall (n : nat) (w : World),
    levels_are t n w ->
    levels_are t (last calls n) (after_calls_part000 calls w).
Proof.
  induction calls as [| c rest IH]; intros n w H.
  - exact H.
  - pose proof (part000_setRetryLevels_whole
                  (fun _ => Fulfilled VUndefined) t n c w H) as [Hl _].
    cbn [after_calls_part000]. rewrite last_cons. apply IH, Hl.
Qed.

(** Decide one collaborator operation: either it is known not to fail,
    or all three ways it can end are considered. *)
Ltac settle_op env op :=
  let E := fresh "E" in
  destruct (env op) eqn:E;
  try match goal with
      | H : forall o, await_failure (env o) = None |- _ =>
          specialize (H op); rewrite E in H; discriminate H
      end.

Ltac next_op env :=
  match goal with
  | E : env ?op = _ |- context [env ?op] => rewrite E
  | E : heard ?ev ?l = _ |- context [heard ?ev ?l] => rewrite E
  | E : CascadeService.filter_failure ?v = _
    |- context [CascadeService.filter_failure ?v] => rewrite E
  | |- context [match env ?op with _ => _ end] => settle_op env op
  | |- context [match CascadeService.filter_failure ?v with _ => _ end] =>
      let E := fresh "E" in destruct (CascadeService.filter_failure v) eqn:E
  | |- context [heard ?ev ?l] =>
      let E := fresh "E" in destruct (heard ev l) eqn:E
  end.

(** [setRetryLevels] past its resize: the rest of the body runs in the
    resized state, which has the listener table of the state before. *)
Ltac past_resize env count w :=
  unfold CascadeService.setRetryLevels;
  rewrite exec_try_state_only by apply resize_state_only;
  try match goal with
      | H : heard _ (listeners w) = _ |- _ =>
          rewrite <- (resize_listeners env count w) in H
      end;
  generalize dependent (final (exec env (resize count) w)); intros.

(** When the admin client goes along, and lists the topics as an
    array, the call completes: the promise resolves with [true]. *)
Lemma setRetryLevels_completes (env : Env) (t : string) (n c : nat)
      (w : World) :
  levels_are t n w ->
  (forall op, await_failure (env op) = None) ->
  (exists names, env AdminListTopics = Fulfilled (VTopics names)) ->
  settlement
    (actions (exec env (CascadeService.setRetryLevels (Z.of_nat c)) w)) =
  Some (inr VTrue).
Proof.
  intros H Hok [names Hlist]. unfold CascadeService.setRetryLevels.
  rewrite exec_try_state_only by apply resize_state_only.
  rewrite (resize_exec env t n c w H). unfold final at 1. cbn [fst].
  unfold actions. cbn.
  repeat (next_op env; cbn).
  reflexivity.
Qed.

Lemma setRetryLevels_completes_witness :
  settlement
    (actions (exec agreeable (CascadeService.setRetryLevels 3)
                   (constructor "t"))) =
  Some (inr VTrue).
Proof.
  apply (setRetryLevels_completes agreeable "t" 0 3 (constructor "t")).
  - apply constructor_levels.
  - intros op. destruct op; reflexivity.
  - exists []. reflexivity.
Defined.

(** ** The retry-level list *)

(** C1.  For every count [N >= 0] and every sequence of earlier
    [setRetryLevels] calls (each with a count [>= 0], each meeting an
    arbitrary broker), after [setRetryLevels(N)] the list [topicsArr] has
    exactly [N] entries and entry [i] is [<topic>-cascade-retry-<i+1>];
    the producer routes against that same list.  This holds for the
    promise-returning method of [cascadeService.ts] (whose call completes
    whenever the admin client does not fail) and for the synchronous one
    of [part_000]. *)
Theorem setRetryLevels_names :
  forall (t : string) (earlier : list (nat * Env)) (N : nat) (env : Env)
         (earlier' : list nat),
    let w := final (exec env (CascadeService.setRetryLevels (Z.of_nat N))
                         (after_calls earlier (constructor t))) in
    let w' := final (exec env (Part000.setRetryLevels (Z.of_nat N))
                          (after_calls_part000 earlier' (constructor t))) in
    (List.length (topicsArr w) = N /\
     (forall i, (i < N)%nat ->
        nth_error (topicsArr w) i =
        Some (t ++ "-cascade-retry-" ++ number_to_string (Z.of_nat i + 1))%string) /\
     producer_view w = topicsArr w) /\
    (List.length (topicsArr w') = N /\
     (forall i, (i < N)%nat ->
        nth_error (topicsArr w') i =
        Some (t ++ "-cascade-retry-" ++ number_to_string (Z.of_nat i + 1))%string) /\
     producer_view w' = topicsArr w').
Proof.
  intros t earlier N env earlier' w w'.
  pose proof (after_calls_levels t earlier 0%nat (constructor t)
                (constructor_levels t)) as H.
  pose proof (after_calls_part000_levels t earlier' 0%nat (constructor t)
                (constructor_levels t)) as H'.
  destruct (setRetryLevels_whole env t _ N _ H) as [(_ & _ & Ha) Hv].
  destruct (part000_setRetryLevels_whole env t _ N _ H')
    as [(_ & _ & Ha') Hv'].
  fold w in Ha, Hv. fold w' in Ha', Hv'.
  rewrite Hv, Hv', Ha, Ha', level_names_length.
  repeat split; auto using level_names_nth.
Qed.

(** The same, on the example the specification gives: 5, then 2, then 4
    levels. *)
Example resize_5_2_4 :
  topicsArr (after_calls [(5, agreeable); (2, agreeable); (4, agreeable)]%nat
                         (constructor "t")) =
  ["t-cascade-retry-1"; "t-cascade-retry-2";
   "t-cascade-retry-3"; "t-cascade-retry-4"].
Proof. reflexivity. Qed.

(** C10.  After construction, and after every [setRetryLevels(count)]
    call with counts [>= 0], the [retries] field equals
    [topicsArr.length] and equals the last count passed; and from such a
    state the grow branch, which starts numbering at [this.retries],
    appends exactly the names [retries+1 .. count]. *)
Theorem retries_is_length :
  forall (t : string) (calls : list (nat * Env)) (calls' : list nat),
    let w := after_calls calls (constructor t) in
    let w' := after_calls_part000 calls' (constructor t) in
    (retries (constructor t) =
       Z.of_nat (List.length (topicsArr (constructor t)))) /\
    (retries w = Z.of_nat (List.length (topicsArr w)) /\
     retries w = Z.of_nat (last (map fst calls) 0%nat)) /\
    (retries w' = Z.of_nat (List.length (topicsArr w')) /\
     retries w' = Z.of_nat (last calls' 0%nat)) /\
    (forall (env : Env) (grow : nat),
        topicsArr (final (exec env (resize (retries w + Z.of_nat grow)) w)) =
        level_names t (List.length (topicsArr w) + grow)).
Proof.
  intros t calls calls' w w'.
  pose proof (after_calls_levels t calls 0%nat (constructor t)
                (constructor_levels t)) as H.
  destruct (after_calls_part000_levels t calls' 0%nat (constructor t)
              (constructor_levels t)) as (Ht' & Hr' & Ha').
  fold w in H. fold w' in Ht', Hr', Ha'.
  pose proof H as (Ht & Hr & Ha).
  split; [reflexivity |].
  split; [| split].
  - rewrite Ha, level_names_length. auto.
  - rewrite Ha', level_names_length. auto.
  - intros env grow. rewrite Hr, <- Nat2Z.inj_add.
    rewrite (resize_exec env t _ _ w H). unfold final; simpl.
    now rewrite Ha, level_names_length.
Qed.

(** Without the equality the grow branch goes wrong: with two entries
    but [retries] still at 0, growing to three levels numbers from 1
    again and leaves five entries. *)
Example grow_needs_the_equality :
  topicsArr
    (final (exec agreeable (resize 3)
              (mkWorld "t" 0 ["t-cascade-retry-1"; "t-cascade-retry-2"]
                       TopicsArrOfService false []))) =
  ["t-cascade-retry-1"; "t-cascade-retry-2";
   "t-cascade-retry-1"; "t-cascade-retry-2"; "t-cascade-retry-3"].
Proof. reflexivity. Qed.


(** ** Pause and resume *)

(** C3.  [pause()] on a paused service, and [resume()] on a running one,
    change no field, call no collaborator and emit nothing: each only
    logs its warning, after which the [async] method's promise resolves
    with [undefined]. *)
Theorem pause_resume_noop :
  forall (env : Env) (w : World),
    (producer_paused w = true ->
     exec env CascadeService.pause w =
     (w,
      [Logged "cascade.pause() called while service is already paused!";
       Resolved VUndefined],
      inr tt)) /\
    (producer_paused w = false ->
     exec env CascadeService.resume w =
     (w,
      [Logged "cascade.resume() called while service is already running!";
       Resolved VUndefined],
      inr tt)).
Proof.
  intros env w. unfold CascadeService.pause, CascadeService.resume.
  split; intros H; cbn [exec]; rewrite H; reflexivity.
Qed.

(** A second [pause()] after a first that went through finds the flag
    set and does nothing; likewise a [resume()] on a fresh service. *)
Lemma pause_resume_noop_witness :
  let w := final (exec agreeable CascadeService.pause (constructor "t")) in
  producer_paused w = true /\
  final (exec agreeable CascadeService.pause w) = w /\
  actions (exec agreeable CascadeService.pause w) =
    [Logged "cascade.pause() called while service is already paused!";
     Resolved VUndefined] /\
  actions (exec agreeable CascadeService.resume (constructor "t")) =
    [Logged "cascade.resume() called while service is already running!";
     Resolved VUndefined].
Proof.
  intros w.
  pose proof (proj1 (pause_resume_noop agreeable w) eq_refl) as Hp.
  pose proof (proj2 (pause_resume_noop agreeable (constructor "t")) eq_refl)
    as Hr.
  rewrite Hp, Hr. repeat split; reflexivity.
Defined.

(** ** Order of actions *)

Lemma preceded_sound (earlier later : Action -> bool) (acts : list Action) :
  forall seen,
    preceded earlier later seen acts = true ->
    forall before a rest,
      acts = before ++ a :: rest -> later a = true ->
      seen = true \/ exists b, In b before /\ earlier b = true.
Proof.
  induction acts as [| x acts IH]; intros seen H before a rest E La.
  - destruct before; discriminate E.
  - simpl in H. apply andb_true_iff in H as [Hx Hrest].
    destruct before as [| y before]; simpl in E; injection E as -> ->.
    + rewrite La in Hx. now left.
    + destruct (IH _ Hrest before a rest eq_refl La) as [Hs | (b & Hb & Eb)].
      * apply orb_true_iff in Hs as [Hs | Hs]; [now left |].
        right. exists y. split; [now left | exact Hs].
      * right. exists b. split; [now right | exact Eb].
Qed.

Lemma preceded_always_after (earlier later : Action -> bool)
      (acts : list Action) :
  preceded earlier later false acts = true ->
  always_after earlier later acts.
Proof.
  intros H before a rest E La.
  destruct (preceded_sound earlier later acts false H before a rest E La)
    as [Hs | Hex]; [discriminate Hs | exact Hex].
Qed.

(** In [cascadeService.ts], [connect()] awaits the producer, then the
    consumer, then emits. *)
Lemma connect_in_order (env : Env) (w : World) :
  let acts := actions (exec env CascadeService.connect w) in
  always_after completes_producer_connect begins_consumer_connect acts /\
  always_after completes_producer_connect (emits "connect") acts /\
  always_after completes_consumer_connect (emits "connect") acts.
Proof.
  unfold CascadeService.connect, actions. cbn.
  repeat split; apply preceded_always_after;
    repeat (next_op env; cbn); reflexivity.
Qed.

(** In [part_000], the consumer's connect has begun before anything can
    have settled, and no [connect] event is emitted. *)
Lemma part000_connect_at_once (env : Env) (w : World) (consumer_first : bool) :
  let acts := actions (exec env (Part000.connect consumer_first) w) in
  (call_failure (env ProducerConnect) = None ->
   exists rest,
     acts = Invoked ProducerConnect :: Invoked ConsumerConnect :: rest) /\
  Forall (fun a => emits "connect" a = false) acts.
Proof.
  unfold Part000.connect, actions.
  split.
  - intros H. destruct (env ProducerConnect) eqn:E; try discriminate H;
      destruct consumer_first; cbn; rewrite ?E; cbn;
      repeat (next_op env; cbn); eexists; reflexivity.
  - destruct consumer_first; cbn; repeat (next_op env; cbn);
      repeat constructor.
Qed.

(** C4, as the code has it.  In [cascadeService.ts], in every execution
    of [connect()] the producer's connect has completed before the
    consumer's begins, and [connect] is emitted only after both have
    succeeded.  In [part_000], [connect()] calls the producer and then the
    consumer before either promise can settle ([Promise.all]), and emits
    no [connect] event. *)
Theorem connect_order :
  forall (env : Env) (w : World) (consumer_first : bool),
    let acts := actions (exec env CascadeService.connect w) in
    let acts' := actions (exec env (Part000.connect consumer_first) w) in
    (always_after completes_producer_connect begins_consumer_connect acts /\
     always_after completes_producer_connect (emits "connect") acts /\
     always_after completes_consumer_connect (emits "connect") acts) /\
    ((call_failure (env ProducerConnect) = None ->
      exists rest,
        acts' = Invoked ProducerConnect :: Invoked ConsumerConnect :: rest) /\
     Forall (fun a => emits "connect" a = false) acts').
Proof.
  intros env w consumer_first. split.
  - apply connect_in_order.
  - apply part000_connect_at_once.
Qed.

Lemma connect_order_witness :
  let acts := actions (exec agreeable CascadeService.connect (constructor "t")) in
  let acts' := actions (exec agreeable (Part000.connect false) (constructor "t")) in
  always_after completes_producer_connect begins_consumer_connect acts /\
  exists rest,
    acts' = Invoked ProducerConnect :: Invoked ConsumerConnect :: rest.
Proof.
  destruct (connect_order agreeable (constructor "t") false)
    as [(H1 & _ & _) [H2 _]].
  split; [exact H1 | apply H2; reflexivity].
Defined.

(** C4 as stated fails on [part_000]: with a broker that accepts both
    connections, the consumer's connect begins with no completed
    producer connect before it. *)
Lemma connect_order_part000_counterexample :
  ~ always_after completes_producer_connect begins_consumer_connect
      (actions (exec agreeable (Part000.connect false) (constructor "t"))).
Proof.
  intros H.
  destruct (H [Invoked ProducerConnect] (Invoked ConsumerConnect)
              [Settled ProducerConnect (Fulfilled VTrue);
               Settled ConsumerConnect (Fulfilled VTrue);
               Resolved (VPair VTrue VTrue)]
              eq_refl eq_refl) as (b & [<- | []] & Hb).
  discriminate Hb.
Qed.

(** ** Event registration *)

Lemma includes_In (event : string) (names : list string) :
  existsb (String.eqb event) names = true <-> In event names.
Proof.
  rewrite existsb_exists. split.
  - intros (x & Hx & E). apply String.eqb_eq in E. now subst.
  - intros H. exists event. split; [exact H | apply String.eqb_refl].
Qed.

Lemma on_exec (names : list string) (env : Env) (w : World)
      (event : string) (callback : Listener) :
  (In event names ->
   exec env (if existsb (String.eqb event) names
             then modify (add_listener event callback)
             else Throw (NewError ("Unknown event: " ++ event))) w =
   (add_listener event callback w, [], inr tt)) /\
  (~ In event names ->
   exec env (if existsb (String.eqb event) names
             then modify (add_listener event callback)
             else Throw (NewError ("Unknown event: " ++ event))) w =
   (w, [], inl (UnknownEventError event))).
Proof.
  split; intros H.
  - apply includes_In in H. rewrite H. reflexivity.
  - destruct (existsb (String.eqb event) names) eqn:E.
    + apply includes_In in E. contradiction.
    + reflexivity.
Qed.

(** C5, as the code has it.  In [cascadeService.ts], [on(event, callback)]
    appends the handler to the listeners and returns when [event] is one
    of the twelve recognized names, and otherwise throws
    [Error('Unknown event: ' + event)] on the spot and registers
    nothing.  In [part_000] the same holds with nine names: [connect],
    [disconnect] and [serviceError] are not among them. *)
Theorem on_recognized_events :
  forall (env : Env) (w : World) (event : string) (callback : Listener),
    let twelve :=
      [ "connect"; "disconnect"; "run"; "stop"; "pause"; "resume";
        "receive"; "success"; "retry"; "dlq"; "error"; "serviceError" ] in
    let nine :=
      [ "run"; "stop"; "pause"; "resume"; "receive"; "success"; "retry";
        "dlq"; "error" ] in
    ((In event twelve ->
      exec env (CascadeService.on event callback) w =
      (add_listener event callback w, [], inr tt)) /\
     (~ In event twelve ->
      exec env (CascadeService.on event callback) w =
      (w, [], inl (UnknownEventError event)))) /\
    ((In event nine ->
      exec env (Part000.on event callback) w =
      (add_listener event callback w, [], inr tt)) /\
     (~ In event nine ->
      exec env (Part000.on event callback) w =
      (w, [], inl (UnknownEventError event)))).
Proof.
  intros env w event callback twelve nine. split.
  - apply (on_exec CascadeService.events).
  - apply (on_exec Part000.events).
Qed.

Lemma on_recognized_events_witness :
  exec agreeable (CascadeService.on "serviceError" 7%nat) (constructor "t") =
    (add_listener "serviceError" 7%nat (constructor "t"), [], inr tt) /\
  exec agreeable (CascadeService.on "message" 7%nat) (constructor "t") =
    (constructor "t", [], inl (UnknownEventError "message")) /\
  exec agreeable (Part000.on "retry" 7%nat) (constructor "t") =
    (add_listener "retry" 7%nat (constructor "t"), [], inr tt).
Proof.
  destruct (on_recognized_events agreeable (constructor "t") "serviceError"
              7%nat) as [[H1 _] _].
  destruct (on_recognized_events agreeable (constructor "t") "message"
              7%nat) as [[_ H2] _].
  destruct (on_recognized_events agreeable (constructor "t") "retry"
              7%nat) as [_ [H3 _]].
  split; [| split].
  - apply H1. simpl. tauto.
  - apply H2. simpl. intros H.
    repeat (destruct H as [H | H]; [discriminate H |]). exact H.
  - apply H3. simpl. tauto.
Defined.

(** C5 as stated fails on [part_000]: [connect] is one of the twelve
    names, yet subscribing to it throws and registers nothing. *)
Lemma on_part000_counterexample :
  In "connect"
     [ "connect"; "disconnect"; "run"; "stop"; "pause"; "resume";
       "receive"; "success"; "retry"; "dlq"; "error"; "serviceError" ] /\
  exec agreeable (Part000.on "connect" 7%nat) (constructor "t") =
  (constructor "t", [], inl (UnknownEventError "connect")).
Proof. split; [now left | reflexivity]. Qed.

(** ** Failures of lifecycle operations *)

Ltac known_env :=
  repeat match goal with
         | E : ?env ?op = _, H : context [?env ?op] |- _ => rewrite E in H
         end.

(** Among the operations a run has invoked, find the one that failed. *)
Ltac find_failing_op Hin Hf :=
  simpl in Hin;
  repeat match type of Hin with
         | _ \/ _ => destruct Hin as [Hin | Hin]
         end;
  try contradiction; try discriminate Hin;
  injection Hin as <-;
  unfold failed in Hf; known_env; simpl in Hf;
  try discriminate Hf;
  injection Hf as <-.

Ltac the_failing_op Hin Hf :=
  find_failing_op Hin Hf;
  (split; [reflexivity | simpl; tauto]).

Ltac the_unheard_op Hin Hf :=
  find_failing_op Hin Hf;
  (split; [reflexivity | split; reflexivity]).

(** X22.  With an [error] listener on the service, each of [connect],
    [disconnect], [setRetryLevels], [run] and [stop] gives both signals:
    if a sub-operation the call reached fails with [e], the promise
    handed back rejects with [e] and an [error] event is emitted whose
    text is ['Error in cascade.<operation>(): ' + e]. *)
Theorem lifecycle_failure_signals :
  forall (m : Lifecycle) (env : Env) (w : World) (op : ExtOp) (e : Thrown),
    heard "error" (listeners w) = true ->
    In (Invoked op) (actions (exec env (lifecycle_body m) w)) ->
    failed env op = Some e ->
    settlement (actions (exec env (lifecycle_body m) w)) = Some (inl e) /\
    In (Emitted "error"
          (ArgText ("Error in cascade." ++ lifecycle_name m ++ "(): "
                    ++ String_of e)))
       (actions (exec env (lifecycle_body m) w)).
Proof.
  intros m env w op e Hh.
  destruct m as [| | count | |]; cbn [lifecycle_body lifecycle_name].
  - unfold CascadeService.connect, actions. cbn.
    repeat (next_op env; cbn); intros Hin Hf; the_failing_op Hin Hf.
  - unfold CascadeService.disconnect, actions. cbn.
    repeat (next_op env; cbn); intros Hin Hf; the_failing_op Hin Hf.
  - unfold CascadeService.setRetryLevels.
    rewrite exec_try_state_only by apply resize_state_only.
    rewrite <- (resize_listeners env count w) in Hh.
    generalize dependent (final (exec env (resize count) w)). intros w1 Hh.
    unfold actions. cbn.
    repeat (next_op env; cbn); intros Hin Hf; the_failing_op Hin Hf.
  - unfold CascadeService.run, actions. cbn.
    repeat (next_op env; cbn); intros Hin Hf; the_failing_op Hin Hf.
  - unfold CascadeService.stop, actions. cbn.
    repeat (next_op env; cbn); intros Hin Hf; the_failing_op Hin Hf.
Qed.

Lemma lifecycle_failure_signals_witness :
  settlement (actions (exec consumer_unreachable CascadeService.connect
                            (listening "t"))) =
    Some (inl (Foreign "broker down")) /\
  In (Emitted "error" (ArgText "Error in cascade.connect(): broker down"))
     (actions (exec consumer_unreachable CascadeService.connect
                    (listening "t"))).
Proof.
  apply (lifecycle_failure_signals LConnect consumer_unreachable
           (listening "t") ConsumerConnect (Foreign "broker down")).
  - reflexivity.
  - simpl. tauto.
  - reflexivity.
Defined.

(** C6, on a service nobody has put an [error] listener on.  For each of
    [connect], [disconnect], [setRetryLevels], [run] and [stop]: if a
    sub-operation the call reached fails with [e], the [emit] in the
    [catch] block throws what [EventEmitter] throws for an unheard
    [error], so that [reject] is not reached: the promise handed back
    never settles, and no event is emitted. *)
Theorem lifecycle_failure_unheard :
  forall (m : Lifecycle) (env : Env) (w : World) (op : ExtOp) (e : Thrown),
    heard "error" (listeners w) = false ->
    In (Invoked op) (actions (exec env (lifecycle_body m) w)) ->
    failed env op = Some e ->
    settlement (actions (exec env (lifecycle_body m) w)) = None /\
    emitted_names (actions (exec env (lifecycle_body m) w)) = [] /\
    outcome (exec env (lifecycle_body m) w) =
      inl (unhandled
             (ArgText ("Error in cascade." ++ lifecycle_name m ++ "(): "
                       ++ String_of e))).
Proof.
  intros m env w op e Hh.
  destruct m as [| | count | |]; cbn [lifecycle_body lifecycle_name].
  - unfold CascadeService.connect, actions, outcome. cbn.
    repeat (next_op env; cbn); intros Hin Hf; the_unheard_op Hin Hf.
  - unfold CascadeService.disconnect, actions, outcome. cbn.
    repeat (next_op env; cbn); intros Hin Hf; the_unheard_op Hin Hf.
  - unfold CascadeService.setRetryLevels.
    rewrite exec_try_state_only by apply resize_state_only.
    rewrite <- (resize_listeners env count w) in Hh.
    generalize dependent (final (exec env (resize count) w)). intros w1 Hh.
    unfold actions, outcome. cbn.
    repeat (next_op env; cbn); intros Hin Hf; the_unheard_op Hin Hf.
  - unfold CascadeService.run, actions, outcome. cbn.
    repeat (next_op env; cbn); intros Hin Hf; the_unheard_op Hin Hf.
  - unfold CascadeService.stop, actions, outcome. cbn.
    repeat (next_op env; cbn); intros Hin Hf; the_unheard_op Hin Hf.
Qed.

Lemma lifecycle_failure_unheard_witness :
  settlement (actions (exec consumer_unreachable CascadeService.connect
                            (constructor "t"))) = None /\
  emitted_names (actions (exec consumer_unreachable CascadeService.connect
                               (constructor "t"))) = [] /\
  outcome (exec consumer_unreachable CascadeService.connect
                (constructor "t")) =
    inl (unhandled (ArgText "Error in cascade.connect(): broker down")).
Proof.
  apply (lifecycle_failure_unheard LConnect consumer_unreachable
           (constructor "t") ConsumerConnect (Foreign "broker down")).
  - reflexivity.
  - simpl. tauto.
  - reflexivity.
Defined.

(** ** The callbacks wired by run *)

(** What the failure callback of [cascadeService.ts] does with one
    message, by the way [producer.send] ends and by whether an [error]
    listener is in place. *)
Lemma failure_path_exec (env : Env) (w : World) (msg : Message) :
  exec env (CascadeService.failure_path msg) w =
  (w,
   Invoked (ProducerSend msg) ::
   match env (ProducerSend msg) with
   | ThrewSync _ => []
   | o => [Settled (ProducerSend msg) o]
   end ++
   match await_failure (env (ProducerSend msg)) with
   | Some e =>
       if heard "error" (listeners w)
       then [Emitted "error"
               (ArgText ("Error in cascade producer.send(): "
                         ++ String_of e))]
       else []
   | None => []
   end,
   match await_failure (env (ProducerSend msg)) with
   | Some e =>
       if heard "error" (listeners w)
       then inr tt
       else inl (unhandled
                   (ArgText ("Error in cascade producer.send(): "
                             ++ String_of e)))
   | None => inr tt
   end).
Proof.
  unfold CascadeService.failure_path. cbn.
  repeat (next_op env; cbn); reflexivity.
Qed.

Lemma part000_failure_path_exec (env : Env) (w : World) (msg : Message) :
  exec env (Part000.failure_path msg) w =
  (w,
   match env (ProducerSend msg) with
   | ThrewSync e =>
       [Invoked (ProducerSend msg);
        Logged ("Caught error in reject callback: " ++ String_of e)]
   | _ => [Invoked (ProducerSend msg)]
   end,
   inr tt).
Proof.
  unfold Part000.failure_path. cbn.
  repeat (next_op env; cbn); reflexivity.
Qed.

Lemma received_app (a b : list Action) :
  received (a ++ b) = received a ++ received b.
Proof. apply flat_map_app. Qed.

Lemma run_parts {A : Type} (w : World) (acts : list Action)
      (r : Thrown + A) :
  final (w, acts, r) = w /\ actions (w, acts, r) = acts /\
  outcome (w, acts, r) = r.
Proof. repeat split. Qed.

Ltac run_parts :=
  repeat match goal with
         | |- context [final (?a, ?b, ?c)] => change (final (a, b, c)) with a
         | |- context [actions (?a, ?b, ?c)] =>
             change (actions (a, b, c)) with b
         | |- context [outcome (?a, ?b, ?c)] =>
             change (outcome (a, b, c)) with c
         end.

(** One message through the consumer: [receive] once; then the success
    callback when the service callback resolved, the failure callback
    otherwise, and the handling ends as that callback does. *)
Lemma handle_trace (env : Env) (onSuccess onFailure : Message -> Prog unit)
      (share : Message -> list Action) (w : World) :
  stays_aside env onSuccess w ->
  stays_aside env onFailure w ->
  (forall m,
      filter on_success (actions (exec env (onSuccess m) w)) = share m) ->
  (forall m,
      filter on_success (actions (exec env (onFailure m) w)) = []) ->
  forall m,
    let h := exec env (CascadeConsumer.handle onSuccess onFailure m) w in
    final h = w /\
    received (actions h) = [m] /\
    filter on_success (actions h) =
      match env (ServiceCallback m) with
      | Fulfilled _ => share m
      | _ => []
      end /\
    outcome h =
      match env (ServiceCallback m) with
      | Fulfilled _ => outcome (exec env (onSuccess m) w)
      | _ => outcome (exec env (onFailure m) w)
      end.
Proof.
  intros AS AF FS FF m.
  destruct (AS m) as [AS1 AS2]. destruct (AF m) as [AF1 AF2].
  specialize (FS m). specialize (FF m).
  unfold CascadeConsumer.handle, signal, outcome, final, actions in *. cbn.
  destruct (env (ServiceCallback m)); cbn.
  - destruct (exec env (onSuccess m) w) as [[w' acts] r]; cbn in *.
    subst. repeat split; [| exact FS]. unfold received in *. cbn.
    now rewrite AS2.
  - destruct (exec env (onFailure m) w) as [[w' acts] r]; cbn in *.
    subst. repeat split; [| exact FF]. unfold received in *. cbn.
    now rewrite AF2.
  - destruct (exec env (onFailure m) w) as [[w' acts] r]; cbn in *.
    subst. repeat split; [| exact FF]. unfold received in *. cbn.
    now rewrite AF2.
Qed.

(** The consume loop, for callbacks that stay aside.  The messages it
    reaches are those for which [receive] is emitted; the success
    callback's share appears once for each of them that the service
    callback resolved; and when the callbacks return normally the loop
    reaches every message it is given. *)
Lemma consume_trace (env : Env) (onSuccess onFailure : Message -> Prog unit)
      (share : Message -> list Action) (w : World) :
  stays_aside env onSuccess w ->
  stays_aside env onFailure w ->
  (forall m,
      filter on_success (actions (exec env (onSuccess m) w)) = share m) ->
  (forall m,
      filter on_success (actions (exec env (onFailure m) w)) = []) ->
  forall msgs,
    let loop := exec env (CascadeConsumer.consume onSuccess onFailure msgs) w in
    final loop = w /\
    filter on_success (actions loop) =
      flat_map share (succeeded env (received (actions loop))) /\
    (returns_normally env onSuccess w ->
     returns_normally env onFailure w ->
     outcome loop = inr tt /\ received (actions loop) = msgs).
Proof.
  intros AS AF FS FF.
  induction msgs as [| m rest IH]; [repeat split |].
  cbn zeta in *. cbn [CascadeConsumer.consume]. rewrite exec_bind.
  destruct (handle_trace env onSuccess onFailure share w AS AF FS FF m)
    as (H1 & H2 & H3 & H4).
  destruct IH as (I1 & I2 & I3).
  destruct (outcome (exec env (CascadeConsumer.handle onSuccess onFailure m) w))
    as [e | []] eqn:Ho.
  - run_parts.
    split; [exact H1 |]. split.
    + rewrite H3, H2. unfold succeeded. cbn [filter flat_map].
      destruct (env (ServiceCallback m)); cbn [flat_map];
        now rewrite ?app_nil_r.
    + intros RS RF. exfalso.
      destruct (env (ServiceCallback m));
        [rewrite (RS m) in H4 | rewrite (RF m) in H4 | rewrite (RF m) in H4];
        discriminate H4.
  - rewrite H1. run_parts.
    split; [exact I1 |]. split.
    + rewrite filter_app, received_app, H3, H2, I2.
      unfold succeeded. cbn [app filter].
      destruct (env (ServiceCallback m)); reflexivity.
    + intros RS RF. destruct (I3 RS RF) as [I4 I5].
      split; [exact I4 |]. now rewrite received_app, H2, I5.
Qed.

Lemma failure_path_aside (env : Env) (w : World) :
  stays_aside env CascadeService.failure_path w /\
  forall m,
    filter on_success
           (actions (exec env (CascadeService.failure_path m) w)) = [].
Proof.
  split; intros m; rewrite failure_path_exec; unfold final, actions; cbn.
  - split; [reflexivity |].
    destruct (env (ProducerSend m)); cbn;
      destruct (heard "error" (listeners w)); reflexivity.
  - destruct (env (ProducerSend m)); cbn;
      destruct (heard "error" (listeners w)); reflexivity.
Qed.

Lemma failure_path_returns (env : Env) (w : World) :
  heard "error" (listeners w) = true ->
  returns_normally env CascadeService.failure_path w.
Proof.
  intros Hh m. rewrite failure_path_exec. unfold outcome; cbn.
  rewrite Hh. destruct (await_failure (env (ProducerSend m))); reflexivity.
Qed.

Lemma success_path_exec (env : Env) (w : World) (msg : Message) :
  exec env (CascadeService.success_path msg) w =
  (w, [Emitted "success" (ArgMessage msg); CalledBack SuccessCB msg], inr tt).
Proof. reflexivity. Qed.

Lemma success_path_aside (env : Env) (w : World) :
  stays_aside env CascadeService.success_path w /\
  returns_normally env CascadeService.success_path w.
Proof. split; intros m; rewrite success_path_exec; repeat split. Qed.

Lemma part000_failure_path_aside (env : Env) (w : World) :
  stays_aside env Part000.failure_path w /\
  returns_normally env Part000.failure_path w /\
  forall m,
    filter on_success (actions (exec env (Part000.failure_path m) w)) = [].
Proof.
  split; [| split]; intros m; rewrite part000_failure_path_exec;
    unfold final, actions, outcome; cbn.
  - split; [reflexivity |]. destruct (env (ProducerSend m)); reflexivity.
  - reflexivity.
  - destruct (env (ProducerSend m)); reflexivity.
Qed.

Lemma part000_success_path_aside (env : Env) (w : World) :
  stays_aside env Part000.success_path w /\
  returns_normally env Part000.success_path w.
Proof. split; intros m; repeat split. Qed.

(** X23.  In [cascadeService.ts], on a service without an [error]
    listener, a [producer.send] that fails with [e] makes the failure
    callback wired by [run()] throw: the [emit] in its [catch] block
    throws what [EventEmitter] throws for an unheard [error], the
    [async] callback's promise rejects with it, and nothing is emitted
    or logged. *)
Theorem send_failure_unheard :
  forall (env : Env) (w : World) (msg : Message) (e : Thrown),
    heard "error" (listeners w) = false ->
    await_failure (env (ProducerSend msg)) = Some e ->
    let r := exec env (CascadeService.failure_path msg) w in
    outcome r =
      inl (unhandled
             (ArgText ("Error in cascade producer.send(): " ++ String_of e))) /\
    surfaced (actions r) = [] /\
    final r = w.
Proof.
  intros env w msg e Hh Hf r. subst r.
  rewrite failure_path_exec. unfold outcome, actions, final; cbn.
  rewrite Hf, Hh.
  repeat split. destruct (env (ProducerSend msg)); reflexivity.
Qed.

Lemma send_failure_unheard_witness :
  outcome (exec send_throws (CascadeService.failure_path first_delivery)
                (constructor "t")) =
    inl (unhandled (ArgText "Error in cascade producer.send(): boom")) /\
  surfaced (actions (exec send_throws
                          (CascadeService.failure_path first_delivery)
                          (constructor "t"))) = [] /\
  final (exec send_throws (CascadeService.failure_path first_delivery)
              (constructor "t")) = constructor "t".
Proof.
  apply (send_failure_unheard send_throws (constructor "t") first_delivery
           (Foreign "boom")); reflexivity.
Defined.

(** C7, as the code has it.  In [cascadeService.ts], on a service with an
    [error] listener, the failure callback wired by [run()] never throws
    and settles no promise; when [producer.send] fails with [e] all it
    lets out is one [error] event with the text
    ['Error in cascade producer.send(): ' + e]; and the consume loop goes
    through every message it is given, whatever [producer.send] does.
    In [part_000] the failure callback does not await [producer.send],
    and when the call throws it lets out a log line, not an event. *)
Theorem send_failure_contained :
  forall (env : Env) (w : World) (msg : Message) (msgs : list Message),
    let r := exec env (CascadeService.failure_path msg) w in
    let loop := exec env (CascadeService.consume_loop msgs) w in
    let r' := exec env (Part000.failure_path msg) w in
    (heard "error" (listeners w) = true ->
     outcome r = inr tt /\
     Forall (fun a => is_settlement a = false) (actions r) /\
     surfaced (actions r) =
       match await_failure (env (ProducerSend msg)) with
       | Some e =>
           [Emitted "error"
              (ArgText ("Error in cascade producer.send(): " ++ String_of e))]
       | None => []
       end /\
     outcome loop = inr tt /\
     received (actions loop) = msgs) /\
    (outcome r' = inr tt /\
     surfaced (actions r') =
       match call_failure (env (ProducerSend msg)) with
       | Some e =>
           [Logged ("Caught error in reject callback: " ++ String_of e)]
       | None => []
       end).
Proof.
  intros env w msg msgs r loop r'. subst r loop r'.
  rewrite failure_path_exec, part000_failure_path_exec.
  split.
  - intros Hh.
    destruct (failure_path_aside env w) as [AF FF].
    destruct (success_path_aside env w) as [AS RS].
    destruct (consume_trace env _ _
                (fun m => [Emitted "success" (ArgMessage m);
                           CalledBack SuccessCB m])
                w AS AF (fun m => eq_refl) FF msgs) as (_ & _ & L).
    destruct (L RS (failure_path_returns env w Hh)) as [L1 L2].
    unfold outcome, actions; cbn. rewrite Hh.
    split; [destruct (env (ProducerSend msg)); reflexivity |].
    split; [destruct (env (ProducerSend msg)); repeat constructor |].
    split; [destruct (env (ProducerSend msg)); reflexivity |].
    split; [exact L1 | exact L2].
  - unfold outcome, actions; cbn.
    split; [reflexivity |].
    destruct (env (ProducerSend msg)); reflexivity.
Qed.

Lemma send_failure_contained_witness :
  surfaced (actions (exec send_throws
                          (CascadeService.failure_path first_delivery)
                          (listening "t"))) =
    [Emitted "error" (ArgText "Error in cascade producer.send(): boom")] /\
  received (actions (exec send_throws
                          (CascadeService.consume_loop
                             [first_delivery; second_delivery])
                          (listening "t"))) =
    [first_delivery; second_delivery].
Proof.
  destruct (send_failure_contained send_throws (listening "t")
              first_delivery [first_delivery; second_delivery])
    as [H _].
  destruct (H eq_refl) as (_ & _ & H3 & _ & H5).
  split; [exact H3 | exact H5].
Defined.

(** C7 as stated fails on [part_000]: when [producer.send] throws, the
    callback lets out a log line and no [error] event. *)
Lemma send_failure_part000_counterexample :
  actions (exec send_throws (Part000.failure_path first_delivery)
                (constructor "t")) =
    [Invoked (ProducerSend first_delivery);
     Logged "Caught error in reject callback: boom"] /\
  ~ exists arg,
      In (Emitted "error" arg)
         (actions (exec send_throws (Part000.failure_path first_delivery)
                        (constructor "t"))).
Proof.
  split; [reflexivity |].
  intros (arg & [H | [H | []]]); discriminate H.
Qed.

(** C8, as the code has it.  In [cascadeService.ts] the success callback
    wired by [run()] emits [success] with the message and then invokes
    the user's success callback; over the consume loop that pair
    appears exactly once, in that order, for every message the loop
    reached and the service callback resolved; and on a service with an
    [error] listener the loop reaches every message it is given.  In
    [part_000] the user's success callback is wired directly: it is
    invoked once per resolved message, every message is reached, and no
    [success] event is emitted. *)
Theorem success_then_callback :
  forall (env : Env) (w : World) (msg : Message) (msgs : list Message),
    let loop := actions (exec env (CascadeService.consume_loop msgs) w) in
    let loop' := actions (exec env (Part000.consume_loop msgs) w) in
    (exec env (CascadeService.success_path msg) w =
       (w, [Emitted "success" (ArgMessage msg); CalledBack SuccessCB msg],
        inr tt) /\
     filter on_success loop =
       flat_map (fun m => [Emitted "success" (ArgMessage m);
                           CalledBack SuccessCB m])
                (succeeded env (received loop)) /\
     (heard "error" (listeners w) = true -> received loop = msgs)) /\
    (exec env (Part000.success_path msg) w =
       (w, [CalledBack SuccessCB msg], inr tt) /\
     filter on_success loop' =
       flat_map (fun m => [CalledBack SuccessCB m]) (succeeded env msgs)).
Proof.
  intros env w msg msgs loop loop'. subst loop loop'.
  split; (split; [reflexivity |]).
  - destruct (failure_path_aside env w) as [AF FF].
    destruct (success_path_aside env w) as [AS RS].
    destruct (consume_trace env _ _
                (fun m => [Emitted "success" (ArgMessage m);
                           CalledBack SuccessCB m])
                w AS AF (fun m => eq_refl) FF msgs) as (_ & L2 & L3).
    split; [exact L2 |].
    intros Hh. apply (L3 RS (failure_path_returns env w Hh)).
  - destruct (part000_failure_path_aside env w) as (AF & RF & FF).
    destruct (part000_success_path_aside env w) as [AS RS].
    destruct (consume_trace env _ _
                (fun m => [CalledBack SuccessCB m])
                w AS AF (fun m => eq_refl) FF msgs) as (_ & L2 & L3).
    destruct (L3 RS RF) as [_ L5].
    unfold Part000.consume_loop. rewrite L2. now rewrite L5.
Qed.

Lemma success_then_callback_witness :
  filter on_success
    (actions (exec agreeable
                   (CascadeService.consume_loop
                      [first_delivery; second_delivery])
                   (listening "t"))) =
    [Emitted "success" (ArgMessage first_delivery);
     CalledBack SuccessCB first_delivery;
     Emitted "success" (ArgMessage second_delivery);
     CalledBack SuccessCB second_delivery] /\
  received
    (actions (exec agreeable
                   (CascadeService.consume_loop
                      [first_delivery; second_delivery])
                   (listening "t"))) =
    [first_delivery; second_delivery].
Proof.
  destruct (success_then_callback agreeable (listening "t") first_delivery
              [first_delivery; second_delivery]) as [(_ & H2 & H3) _].
  split; [rewrite H2, (H3 eq_refl); reflexivity | exact (H3 eq_refl)].
Defined.

(** C8 as stated fails on [part_000]: a message the service callback
    resolves reaches the user's success callback with no [success]
    event emitted. *)
Lemma success_part000_counterexample :
  actions (exec agreeable (Part000.consume_loop [first_delivery])
                (constructor "t")) =
    [Emitted "receive" (ArgMessage first_delivery);
     Invoked (ServiceCallback first_delivery);
     CalledBack SuccessCB first_delivery] /\
  ~ exists arg,
      In (Emitted "success" arg)
         (actions (exec agreeable (Part000.consume_loop [first_delivery])
                        (constructor "t"))).
Proof.
  split; [reflexivity |].
  intros (arg & [H | [H | [H | []]]]); discriminate H.
Qed.

(** ** Routing by the producer *)

(** C2.  For a message whose [retries] header is [k] (0 when absent),
    handed to [send] with [N] retry levels: when [k < N], [send]
    publishes to the list entry at index [k] a message whose [retries]
    header is [k+1], and, the broker accepting it, emits [retry] with
    that message; when [k >= N], [send] invokes the dead-letter callback
    and emits [dlq]. *)
Theorem send_routing :
  forall (env : Env) (w : World) (msg : Message),
    let k := CascadeProducer.retries_of msg in
    let levels := producer_view w in
    let out := CascadeProducer.outgoing msg in
    ((k < List.length levels)%nat ->
     exists dest,
       nth_error levels k = Some dest /\
       retries_header out = Some (k + 1)%nat /\
       In (Invoked (BrokerPublish dest out))
          (actions (exec env (CascadeProducer.send msg) w)) /\
       (await_failure (env (BrokerPublish dest out)) = None ->
        actions (exec env (CascadeProducer.send msg) w) =
        [Invoked (BrokerPublish dest out);
         Settled (BrokerPublish dest out) (env (BrokerPublish dest out));
         Emitted "retry" (ArgMessage out)])) /\
    ((List.length levels <= k)%nat ->
     actions (exec env (CascadeProducer.send msg) w) =
     [CalledBack DlqCB msg; Emitted "dlq" (ArgMessage msg)]).
Proof.
  intros env w msg k levels out. split; intros H.
  - exists (nth k levels "").
    split; [apply nth_error_nth'; exact H |].
    split; [unfold out, CascadeProducer.outgoing; simpl; f_equal; lia |].
    unfold CascadeProducer.send, actions. cbn [exec].
    fold levels. fold k. fold out.
    destruct (Nat.ltb_spec k (List.length levels)) as [_ | Hge]; [| lia].
    cbn. split.
    + repeat (next_op env; cbn); now left.
    + intros Hok.
      destruct (env (BrokerPublish (nth k levels "") out)) eqn:E;
        try discriminate Hok.
      cbn. rewrite E. reflexivity.
  - unfold CascadeProducer.send, actions. cbn [exec].
    fold levels. fold k.
    destruct (Nat.ltb_spec k (List.length levels)) as [Hlt | _]; [lia |].
    reflexivity.
Qed.

Lemma send_routing_witness :
  let w := after_calls [(2%nat, agreeable)] (constructor "t") in
  let once := mkMessage 4 "order-17" (Some 1%nat) in
  let fresh := mkMessage 5 "order-18" None in
  let twice := mkMessage 6 "order-19" (Some 2%nat) in
  actions (exec agreeable (CascadeProducer.send once) w) =
    [Invoked (BrokerPublish "t-cascade-retry-2"
                (mkMessage 4 "order-17" (Some 2%nat)));
     Settled (BrokerPublish "t-cascade-retry-2"
                (mkMessage 4 "order-17" (Some 2%nat))) (Fulfilled VTrue);
     Emitted "retry" (ArgMessage (mkMessage 4 "order-17" (Some 2%nat)))] /\
  In (Invoked (BrokerPublish "t-cascade-retry-1"
                 (mkMessage 5 "order-18" (Some 1%nat))))
     (actions (exec agreeable (CascadeProducer.send fresh) w)) /\
  actions (exec agreeable (CascadeProducer.send twice) w) =
    [CalledBack DlqCB twice; Emitted "dlq" (ArgMessage twice)].
Proof.
  intros w once fresh twice.
  destruct (send_routing agreeable w once) as [H1 _].
  destruct (send_routing agreeable w fresh) as [H2 _].
  destruct (send_routing agreeable w twice) as [_ H3].
  destruct H1 as (d1 & N1 & _ & _ & A1); [vm_compute; lia |].
  destruct H2 as (d2 & N2 & _ & I2 & _); [vm_compute; lia |].
  injection N1 as <-. injection N2 as <-.
  split; [apply A1; reflexivity |].
  split; [exact I2 |].
  apply H3. vm_compute. lia.
Defined.

(** ** Resizing while messages are being routed *)

(** A stretch of a quiet body leaves the levels alone and leaves a quiet
    task behind. *)
Lemma segment_quiet (env : Env) (p : Prog unit) :
  quiet p ->
  forall w w' acts task,
    segment env p w = (w', acts, task) ->
    (topic w' = topic w /\ retries w' = retries w /\
     topicsArr w' = topicsArr w /\
     producer_retryTopics w' = producer_retryTopics w) /\
    quiet_task task.
Proof.
  induction p as [a | e | k IH | g k IH | a k IH | op k IH | op k IH | ms k IH];
    simpl; intros H w w' acts task E.
  - injection E as <- <- <-. simpl. auto.
  - injection E as <- <- <-. simpl. auto.
  - eapply IH; [apply H | exact E].
  - destruct H as [Hg Hk].
    destruct (IH Hk _ _ _ _ E) as [(E1 & E2 & E3 & E4) Hq].
    destruct (Hg w) as (G1 & G2 & G3 & G4).
    rewrite E1, E2, E3, E4. auto.
  - destruct (segment env k w) as [[w1 acts1] t1] eqn:Ek.
    injection E as <- <- <-. eapply IH; [exact H | exact Ek].
  - destruct (segment env (k (env op)) w) as [[w1 acts1] t1] eqn:Ek.
    injection E as <- <- <-. eapply IH; [apply H | exact Ek].
  - injection E as <- <- <-. simpl. auto.
  - injection E as <- <- <-. simpl. auto.
Qed.

Lemma turn_quiet (env : Env) (task : Task) :
  quiet_task task ->
  forall t n w w' acts task',
    whole_list t n w ->
    turn env task w = (w', acts, task') ->
    whole_list t n w' /\ quiet_task task'.
Proof.
  intros Hq t n w w' acts task' Hw E.
  destruct task as [p | op k | k |]; simpl in Hq, E.
  - destruct (segment_quiet env p Hq _ _ _ _ E) as [(E1 & E2 & E3 & E4) Hq'].
    split; [apply (whole_list_fields t n w); auto | exact Hq'].
  - destruct (segment env (k (env op)) w) as [[w1 acts1] t1] eqn:Ek.
    injection E as <- <- <-.
    destruct (segment_quiet env _ (Hq (env op)) _ _ _ _ Ek)
      as [(E1 & E2 & E3 & E4) Hq'].
    split; [apply (whole_list_fields t n w); auto | exact Hq'].
  - destruct (segment_quiet env k Hq _ _ _ _ E) as [(E1 & E2 & E3 & E4) Hq'].
    split; [apply (whole_list_fields t n w); auto | exact Hq'].
  - injection E as <- <- <-. auto.
Qed.

(** The first stretch of [setRetryLevels(c)] does the whole resize: when
    it gives control back at its first [await], or ends, the list is
    whole for [c], and what is left of the call is quiet. *)
Lemma turn_setRetryLevels (env : Env) (t : string) (n c : nat) :
  forall w w' acts task',
    whole_list t n w ->
    turn env (Fresh (CascadeService.setRetryLevels (Z.of_nat c))) w =
      (w', acts, task') ->
    whole_list t c w' /\ quiet_task task'.
Proof.
  intros w w' acts task' [Hl _] E. cbn [turn] in E.
  unfold CascadeService.setRetryLevels in E.
  rewrite segment_try_state_only in E by apply resize_state_only.
  rewrite (resize_exec env t n c w Hl) in E. unfold final in E. simpl fst in E.
  assert (Hq : quiet (try_catch CascadeService.register_topics
                (CascadeService.report "Error in cascade.setRetryLevels(): "))).
  { apply quiet_try_catch; [apply quiet_register_topics |].
    intros e. apply quiet_report. }
  destruct (segment_quiet env _ Hq _ _ _ _ E) as [(E1 & E2 & E3 & E4) Hq'].
  split; [| exact Hq'].
  eapply whole_list_fields; [| exact E1 | exact E2 | exact E3 | exact E4].
  unfold whole_list, levels_are, producer_view; simpl. auto.
Qed.

Lemma Forall_replace_nth {A : Type} (P : A -> Prop) (x : A) :
  forall (l : list A) (i : nat),
    Forall P l -> P x -> Forall P (replace_nth i x l).
Proof.
  induction l as [| y l IH]; intros i Hl Hx; [destruct i; constructor |].
  inversion Hl as [| ? ? Hy Hrest]; subst.
  destruct i as [| i]; simpl; constructor; auto.
Qed.

(** The invariant of the event loop: the list is whole, and every task
    is a resize not yet begun or is quiet. *)
Lemma interleave_whole (t : string) (counts : list nat)
      (schedule : list (nat * Env)) :
  forall (pool : list Task) (w : World),
    whole_for t counts w ->
    Forall (fun task =>
              (exists c, In c counts /\
                 task = Fresh (CascadeService.setRetryLevels (Z.of_nat c))) \/
              quiet_task task) pool ->
    Forall (whole_for t counts) (interleave schedule pool w).
Proof.
  induction schedule as [| [i env] rest IH]; intros pool w Hw Hpool; simpl.
  - constructor; [exact Hw | constructor].
  - destruct (nth_error pool i) as [task |] eqn:Ei.
    + destruct (turn env task w) as [[w' acts] task'] eqn:Et.
      constructor; [exact Hw |].
      assert (Htask := proj1 (Forall_forall _ pool) Hpool task
                             (nth_error_In _ _ Ei)).
      destruct Hw as (n & Hn & Hwn).
      destruct Htask as [(c & Hc & ->) | Hq].
      * destruct (turn_setRetryLevels env t n c _ _ _ _ Hwn Et) as [Hw' Hq'].
        apply IH; [exists c; auto |].
        apply Forall_replace_nth; auto.
      * destruct (turn_quiet env task Hq t n _ _ _ _ Hwn Et) as [Hw' Hq'].
        apply IH; [exists n; auto |].
        apply Forall_replace_nth; auto.
    + constructor; [exact Hw |]. apply IH; assumption.
Qed.

(** C9.  Take any number of [setRetryLevels] calls, [send]s and other
    bodies that leave the levels alone, and let the event loop
    interleave their turns in any order, with the broker answering in
    any way.  At every switch between turns, and so whenever a [send]
    reads the list to route a message, the producer's list is whole: it
    is [<topic>-cascade-retry-1 .. n] for [n] the initial count or a
    count passed to one of the calls.  The pops and pushes that go
    through the shared array all fall inside the first turn of the
    call. *)
Theorem resize_atomic_for_send :
  forall (t : string) (n0 : nat) (counts : list nat) (w0 : World)
         (pool : list Task) (schedule : list (nat * Env)),
    whole_list t n0 w0 ->
    Forall (resize_or_reader counts) pool ->
    Forall (fun w =>
              exists n,
                In n (n0 :: counts) /\
                producer_view w = level_names t n /\
                retries w = Z.of_nat n)
           (interleave schedule pool w0).
Proof.
  intros t n0 counts w0 pool schedule Hw Hpool.
  assert (H : Forall (whole_for t (n0 :: counts))
                     (interleave schedule pool w0)).
  { apply interleave_whole.
    - exists n0. split; [now left | exact Hw].
    - apply Forall_forall. intros task Hin.
      apply (proj1 (Forall_forall _ pool) Hpool) in Hin.
      destruct Hin as [(c & Hc & ->) | [(msg & ->) | (p & -> & Hq)]].
      + left. exists c. split; [now right | reflexivity].
      + right. apply quiet_send.
      + right. exact Hq. }
  apply Forall_forall. intros w Hin.
  apply (proj1 (Forall_forall _ _) H) in Hin.
  destruct Hin as (n & Hn & (_ & Hr & _) & Hv).
  exists n. auto.
Qed.

(** Five levels in place; a resize to two and the routing of a message
    on its fourth attempt take turns. *)
Lemma resize_atomic_for_send_witness :
  Forall (fun w =>
            exists n,
              In n [5; 2]%nat /\
              producer_view w = level_names "t" n /\
              retries w = Z.of_nat n)
         (interleave
            [(0, agreeable); (1, agreeable); (0, agreeable);
             (1, agreeable); (0, agreeable)]%nat
            [Fresh (CascadeService.setRetryLevels (Z.of_nat 2));
             Fresh (CascadeProducer.send (mkMessage 9 "order-20" (Some 3%nat)))]
            (after_calls [(5%nat, agreeable)] (constructor "t"))).
Proof.
  apply (resize_atomic_for_send "t" 5 [2%nat]).
  - repeat split; reflexivity.
  - constructor.
    + left. exists 2%nat. split; [now left | reflexivity].
    + constructor; [| constructor].
      right. left. eexists. reflexivity.
Defined.

(** Inside the turn the list is not whole: the array the service pops
    from is the one the producer routes against, so a single [pop] shows
    through at once, while [retries] still says five. *)
Example pop_shows_through_the_alias :
  let w := final (exec agreeable pop
                       (after_calls [(5%nat, agreeable)] (constructor "t"))) in
  producer_view w = level_names "t" 4 /\ retries w = 5.
Proof. split; reflexivity. Qed.

(** * More of the two files *)

(** ** Teardown *)

(** X1.  In [cascadeService.ts], [disconnect()] stops the producer, then
    disconnects it, then disconnects the consumer, each step beginning
    only after the one before has completed; [disconnect] is emitted only
    after the consumer has disconnected; and the consumer is never asked
    to stop. *)
Theorem disconnect_order :
  forall (env : Env) (w : World),
    let acts := actions (exec env CascadeService.disconnect w) in
    always_after (completes is_ProducerStop) (begins is_ProducerDisconnect)
                 acts /\
    always_after (completes is_ProducerDisconnect)
                 (begins is_ConsumerDisconnect) acts /\
    always_after (completes is_ConsumerDisconnect) (emits "disconnect") acts /\
    Forall (fun a => begins is_ConsumerStop a = false) acts.
Proof.
  intros env w. unfold CascadeService.disconnect, actions. cbn.
  repeat split; try apply preceded_always_after;
    repeat (next_op env; cbn); try reflexivity; repeat constructor.
Qed.

(** X2.  In [cascadeService.ts], [stop()] begins to stop the producer
    only after the consumer has stopped, and emits [stop] only after the
    producer has stopped as well. *)
Theorem stop_order :
  forall (env : Env) (w : World),
    let acts := actions (exec env CascadeService.stop w) in
    always_after (completes is_ConsumerStop) (begins is_ProducerStop) acts /\
    always_after (completes is_ProducerStop) (emits "stop") acts.
Proof.
  intros env w. unfold CascadeService.stop, actions. cbn.
  split; apply preceded_always_after;
    repeat (next_op env; cbn); reflexivity.
Qed.

(** ** Settling *)

Ltac count_settlements env :=
  unfold actions; cbn; repeat (next_op env; cbn);
  first [reflexivity | repeat constructor].

(** X3.  A call of [connect], [disconnect], [setRetryLevels], [run],
    [stop], [pause] or [resume] of [cascadeService.ts] never reaches
    more than one of [resolve] and [reject], and none twice; on a
    service with an [error] listener it reaches exactly one, once (for
    [pause] and [resume] in the state that has nothing to do, the one
    settlement is the [async] method's own).  Collaborators are those of
    the model: every call on them returns or throws, and every promise
    awaited settles. *)
Theorem settles_at_most_once :
  forall (env : Env) (w : World) (m : Lifecycle),
    let counts :=
      [ List.length (settlements (actions (exec env (lifecycle_body m) w)));
        List.length (settlements (actions (exec env CascadeService.pause w)));
        List.length (settlements (actions (exec env CascadeService.resume w)))
      ] in
    Forall (fun n => (n <= 1)%nat) counts /\
    (heard "error" (listeners w) = true ->
     Forall (fun n => n = 1%nat) counts).
Proof.
  intros env w m counts. subst counts.
  split; [| intros Hh]; (constructor; [| constructor; [| constructor; [| constructor]]]).
  - destruct m as [| | count | |]; cbn [lifecycle_body].
    + unfold CascadeService.connect. count_settlements env.
    + unfold CascadeService.disconnect. count_settlements env.
    + past_resize env count w. count_settlements env.
    + unfold CascadeService.run. count_settlements env.
    + unfold CascadeService.stop. count_settlements env.
  - unfold CascadeService.pause, actions. cbn [exec].
    destruct (producer_paused w); count_settlements env.
  - unfold CascadeService.resume, actions. cbn [exec].
    destruct (producer_paused w); count_settlements env.
  - destruct m as [| | count | |]; cbn [lifecycle_body].
    + unfold CascadeService.connect. count_settlements env.
    + unfold CascadeService.disconnect. count_settlements env.
    + past_resize env count w. count_settlements env.
    + unfold CascadeService.run. count_settlements env.
    + unfold CascadeService.stop. count_settlements env.
  - unfold CascadeService.pause, actions. cbn [exec].
    destruct (producer_paused w); count_settlements env.
  - unfold CascadeService.resume, actions. cbn [exec].
    destruct (producer_paused w); count_settlements env.
Qed.

Lemma settles_at_most_once_witness :
  Forall (fun n => n = 1%nat)
    [ List.length
        (settlements (actions (exec consumer_unreachable
                                    (lifecycle_body LConnect) (listening "t"))));
      List.length
        (settlements (actions (exec consumer_unreachable CascadeService.pause
                                    (listening "t"))));
      List.length
        (settlements (actions (exec consumer_unreachable CascadeService.resume
                                    (listening "t")))) ].
Proof.
  apply (settles_at_most_once consumer_unreachable (listening "t") LConnect).
  reflexivity.
Defined.



(** ** Pausing and resuming *)

(** X5.  In [cascadeService.ts], [pause()] calls [producer.pause] only
    after [consumer.pause] has completed and emits [pause] only after
    that call; [resume()] begins [producer.resume] only after
    [consumer.resume] has completed and emits [resume] only after
    [producer.resume] has completed. *)
Theorem pause_resume_order :
  forall (env : Env) (w : World),
    let acts := actions (exec env CascadeService.pause w) in
    let acts' := actions (exec env CascadeService.resume w) in
    (always_after (completes is_ConsumerPause) (begins is_ProducerPause) acts /\
     always_after (begins is_ProducerPause) (emits "pause") acts) /\
    (always_after (completes is_ConsumerResume) (begins is_ProducerResume)
                  acts' /\
     always_after (completes is_ProducerResume) (emits "resume") acts').
Proof.
  intros env w.
  unfold CascadeService.pause, CascadeService.resume, actions. cbn [exec].
  split; split; apply preceded_always_after;
    destruct (producer_paused w); cbn;
    repeat (next_op env; cbn); reflexivity.
Qed.

(** X6.  When [consumer.pause] fails on a running service, [pause()]
    never calls [producer.pause] and leaves every field as it was; on a
    service with an [error] listener it emits one [error] event and
    rejects with the failure, and on a service without one it emits
    nothing and its promise never settles.  When [consumer.resume] fails
    on a paused service, [resume()] likewise never calls
    [producer.resume]. *)
Theorem pause_resume_first_step_fails :
  forall (env : Env) (w : World) (e : Thrown),
    (producer_paused w = false ->
     await_failure (env ConsumerPause) = Some e ->
     final (exec env CascadeService.pause w) = w /\
     invocations (actions (exec env CascadeService.pause w))
       = [ConsumerPause] /\
     emitted_names (actions (exec env CascadeService.pause w))
       = (if heard "error" (listeners w) then ["error"] else []) /\
     settlement (actions (exec env CascadeService.pause w))
       = (if heard "error" (listeners w) then Some (inl e) else None)) /\
    (producer_paused w = true ->
     await_failure (env ConsumerResume) = Some e ->
     final (exec env CascadeService.resume w) = w /\
     invocations (actions (exec env CascadeService.resume w))
       = [ConsumerResume] /\
     emitted_names (actions (exec env CascadeService.resume w))
       = (if heard "error" (listeners w) then ["error"] else []) /\
     settlement (actions (exec env CascadeService.resume w))
       = (if heard "error" (listeners w) then Some (inl e) else None)).
Proof.
  intros env w e.
  unfold CascadeService.pause, CascadeService.resume, actions, final.
  cbn [exec].
  split; intros Hp Hf; rewrite Hp; cbn;
    [destruct (env ConsumerPause) eqn:E
    | destruct (env ConsumerResume) eqn:E];
    try discriminate Hf; injection Hf as <-; cbn; rewrite ?E; cbn;
    destruct (heard "error" (listeners w)); cbn;
    repeat split; reflexivity.
Qed.

Lemma pause_resume_first_step_fails_witness :
  (final (exec consumer_pause_fails CascadeService.pause (listening "t"))
     = listening "t" /\
   invocations (actions (exec consumer_pause_fails CascadeService.pause
                              (listening "t"))) = [ConsumerPause] /\
   emitted_names (actions (exec consumer_pause_fails CascadeService.pause
                                (listening "t"))) = ["error"] /\
   settlement (actions (exec consumer_pause_fails CascadeService.pause
                             (listening "t")))
     = Some (inl (Foreign "no assignment"))) /\
  (emitted_names (actions (exec consumer_pause_fails CascadeService.pause
                                (constructor "t"))) = [] /\
   settlement (actions (exec consumer_pause_fails CascadeService.pause
                             (constructor "t"))) = None).
Proof.
  split.
  - apply (proj1 (pause_resume_first_step_fails consumer_pause_fails
                    (listening "t") (Foreign "no assignment")));
      reflexivity.
  - apply (proj1 (pause_resume_first_step_fails consumer_pause_fails
                    (constructor "t") (Foreign "no assignment")));
      reflexivity.
Defined.

(** ** Provisioning *)

Lemma reads_only_bind {A B : Type} (p : Prog A) (f : A -> Prog B) :
  reads_only p -> (forall a, reads_only (f a)) -> reads_only (bind p f).
Proof.
  induction p as [a | e | k IH | g k IH | a k IH | op k IH | op k IH | ms k IH];
    simpl; intros H Hf; auto; contradiction.
Qed.

Lemma reads_only_try_catch {A : Type} (p : Prog A) (h : Thrown -> Prog A) :
  reads_only p -> (forall e, reads_only (h e)) ->
  reads_only (try_catch p h).
Proof.
  induction p as [a | e | k IH | g k IH | a k IH | op k IH | op k IH | ms k IH];
    simpl; intros H Hh; auto; contradiction.
Qed.

Lemma reads_only_await (op : ExtOp) : reads_only (await op).
Proof.
  simpl. intros [v | e | e]; simpl; auto;
    intros [v' | e' | e']; simpl; auto.
Qed.

Lemma reads_only_call (op : ExtOp) : reads_only (call op).
Proof. simpl. intros [v | e | e]; simpl; auto. Qed.

Lemma reads_only_exec {A : Type} (env : Env) (p : Prog A) :
  reads_only p -> forall w, final (exec env p w) = w.
Proof.
  unfold final.
  induction p as [a | e | k IH | g k IH | a k IH | op k IH | op k IH | ms k IH];
    simpl; intros H w; auto; try contradiction.
  - specialize (IH H w). destruct (exec env k w) as [[w' acts] r]. exact IH.
  - specialize (IH (env op) (H (env op)) w).
    destruct (exec env (k (env op)) w) as [[w' acts] r]. exact IH.
  - specialize (IH (env op) (H (env op)) w).
    destruct (exec env (k (env op)) w) as [[w' acts] r]. exact IH.
  - specialize (IH H w). destruct (exec env k w) as [[w' acts] r]. exact IH.
Qed.

Lemma reads_only_provisioning :
  reads_only
    (try_catch CascadeService.register_topics
       (CascadeService.report "Error in cascade.setRetryLevels(): ")).
Proof.
  apply reads_only_try_catch.
  - unfold CascadeService.register_topics, console_log, resolve, act.
    repeat (apply reads_only_bind; [| intros ?]);
      try (cbn [reads_only]; intros;
           auto using reads_only_await, reads_only_call).
    destruct (CascadeService.filter_failure _); simpl; auto.
  - intros e. unfold CascadeService.report, emit, reject, act.
    cbn [bind reads_only]. intros w.
    destruct (heard "error" (listeners w)); simpl; auto.
Qed.

(** The environment plays no part in a body of reads and writes. *)
Lemma state_only_env {A : Type} (env env' : Env) (p : Prog A) :
  state_only p -> forall w, exec env p w = exec env' p w.
Proof.
  induction p as [a | e | k IH | g k IH | a k IH | op k IH | op k IH | ms k IH];
    simpl; intros H w; try contradiction; auto.
Qed.

(** What [setRetryLevels] leaves in the fields is what the resize left. *)
Lemma setRetryLevels_final (env : Env) (count : Z) (w : World) :
  final (exec env (CascadeService.setRetryLevels count) w) =
  final (exec env (resize count) w).
Proof.
  unfold CascadeService.setRetryLevels.
  rewrite exec_try_state_only by apply resize_state_only.
  apply reads_only_exec, reads_only_provisioning.
Qed.

(** The resize on any state, by the branch it takes. *)
Lemma resize_any (env : Env) (count : Z) (w : World) :
  final (exec env (resize count) w) =
  mkWorld (topic w) count
    (if Z.of_nat (List.length (topicsArr w)) >? count
     then firstn (List.length (topicsArr w)
                  - Z.to_nat (Z.of_nat (List.length (topicsArr w)) - count))
                 (topicsArr w)
     else topicsArr w ++
          map (fun j => retry_topic_name (topic w) (retries w + Z.of_nat j))
              (seq 0 (Z.to_nat (count - retries w))))
    TopicsArrOfService (producer_paused w) (listeners w).
Proof.
  unfold resize. cbn [bind]. cbn [exec]. rewrite exec_bind.
  destruct (Z.of_nat (List.length (topicsArr w)) >? count).
  - rewrite pop_loop_exec. unfold outcome, final, actions; simpl.
    now rewrite removelast_iter.
  - rewrite push_loop_exec. unfold outcome, final, actions; simpl.
    reflexivity.
Qed.

(** X7.  From a state with levels [1..n], [setRetryLevels(N)] of
    [cascadeService.ts] calls, in this order, [kafka.admin()],
    [admin.connect], [admin.createTopics] with all [N] level names (those
    that exist already included), [new RegExp], [admin.listTopics] and
    [admin.disconnect], and makes no other call.  It goes exactly as far
    as the first of them that fails, [listTopics] counting as failed
    also when it fulfils with something line 130 cannot filter; it makes
    all six when there is no such call. *)
Theorem provisioning_calls_in_order :
  forall (env : Env) (t : string) (n N : nat) (w : World),
    levels_are t n w ->
    let calls :=
      invocations
        (actions (exec env (CascadeService.setRetryLevels (Z.of_nat N)) w)) in
    calls = upto_first (halts env) (provisioning_calls t N) /\
    ((forall op, halts env op = false) -> calls = provisioning_calls t N).
Proof.
  intros env t n N w H.
  assert (Hcalls :
    invocations
      (actions (exec env (CascadeService.setRetryLevels (Z.of_nat N)) w)) =
    upto_first (halts env) (provisioning_calls t N)).
  { unfold CascadeService.setRetryLevels.
    rewrite exec_try_state_only by apply resize_state_only.
    rewrite (resize_exec env t n N w H). unfold final at 1. cbn [fst].
    unfold actions, provisioning_calls, halts, failed. cbn.
    repeat (next_op env; cbn); reflexivity. }
  cbn zeta. split; [exact Hcalls |].
  intros Hnone. rewrite Hcalls. unfold provisioning_calls. cbn [upto_first].
  now rewrite !Hnone.
Qed.

Lemma provisioning_calls_in_order_witness :
  invocations
    (actions (exec agreeable (CascadeService.setRetryLevels (Z.of_nat 2))
                   (constructor "t"))) =
    [KafkaAdmin; AdminConnect;
     AdminCreateTopics ["t-cascade-retry-1"; "t-cascade-retry-2"];
     NewRegExp "^t-cascade-retry-.*"; AdminListTopics; AdminDisconnect] /\
  invocations
    (actions (exec create_topics_fails
                   (CascadeService.setRetryLevels (Z.of_nat 2))
                   (constructor "t"))) =
    [KafkaAdmin; AdminConnect;
     AdminCreateTopics ["t-cascade-retry-1"; "t-cascade-retry-2"]] /\
  invocations
    (actions (exec lists_no_array
                   (CascadeService.setRetryLevels (Z.of_nat 2))
                   (constructor "t"))) =
    [KafkaAdmin; AdminConnect;
     AdminCreateTopics ["t-cascade-retry-1"; "t-cascade-retry-2"];
     NewRegExp "^t-cascade-retry-.*"; AdminListTopics].
Proof.
  split; [| split].
  - exact (proj1 (provisioning_calls_in_order agreeable "t" 0 2
                    (constructor "t") (constructor_levels "t"))).
  - exact (proj1 (provisioning_calls_in_order create_topics_fails "t" 0 2
                    (constructor "t") (constructor_levels "t"))).
  - exact (proj1 (provisioning_calls_in_order lists_no_array "t" 0 2
                    (constructor "t") (constructor_levels "t"))).
Defined.

(** X8.  When the admin client has connected and [setRetryLevels] of
    [cascadeService.ts] then goes no further than [createTopics],
    [new RegExp] or [listTopics], it never calls [admin.disconnect]: the
    admin connection is left open.  On a service with an [error]
    listener the call rejects; on one without it never settles. *)
Theorem admin_left_connected :
  forall (env : Env) (t : string) (n N : nat) (w : World),
    levels_are t n w ->
    call_failure (env KafkaAdmin) = None ->
    await_failure (env AdminConnect) = None ->
    (halts env (AdminCreateTopics (level_names t N)) = true \/
     halts env (NewRegExp ("^" ++ t ++ "-cascade-retry-.*")) = true \/
     halts env AdminListTopics = true) ->
    let acts :=
      actions (exec env (CascadeService.setRetryLevels (Z.of_nat N)) w) in
    In (Settled AdminConnect (env AdminConnect)) acts /\
    Forall (fun a => begins is_AdminDisconnect a = false) acts /\
    (heard "error" (listeners w) = true ->
     exists e, settlement acts = Some (inl e)) /\
    (heard "error" (listeners w) = false -> settlement acts = None).
Proof.
  intros env t n N w H Hadmin Hconn Hfail.
  unfold CascadeService.setRetryLevels.
  rewrite exec_try_state_only by apply resize_state_only.
  rewrite (resize_exec env t n N w H). unfold final at 1. cbn [fst].
  unfold actions, halts, failed in *. cbn in Hfail |- *.
  repeat (next_op env; cbn in Hadmin, Hconn, Hfail |- *);
    try discriminate Hadmin; try discriminate Hconn;
    try (destruct Hfail as [Hf | [Hf | Hf]]; discriminate Hf);
    (split; [simpl; tauto |]);
    (split; [repeat constructor |]);
    (split; intros Hh; [| try reflexivity; discriminate Hh]);
    first [discriminate Hh | eexists; reflexivity].
Qed.

Lemma admin_left_connected_witness :
  let acts :=
    actions (exec create_topics_fails
                  (CascadeService.setRetryLevels (Z.of_nat 2))
                  (listening "t")) in
  In (Settled AdminConnect (Fulfilled VTrue)) acts /\
  Forall (fun a => begins is_AdminDisconnect a = false) acts /\
  exists e, settlement acts = Some (inl e).
Proof.
  destruct (admin_left_connected create_topics_fails "t" 0 2 (listening "t"))
    as (H1 & H2 & H3 & _).
  - repeat split.
  - reflexivity.
  - reflexivity.
  - left. reflexivity.
  - split; [exact H1 | split; [exact H2 | apply H3; reflexivity]].
Defined.

(** ** The resize on any state *)

(** X9.  What a [setRetryLevels] call of [cascadeService.ts] leaves in
    the service's and the producer's fields does not depend on the admin
    client: a call that rejects has switched the list, the counter and
    the producer's reference just as one that resolves.  Nothing is
    rolled back. *)
Theorem no_rollback :
  forall (env env' : Env) (count : Z) (w : World),
    final (exec env (CascadeService.setRetryLevels count) w) =
    final (exec env' (CascadeService.setRetryLevels count) w) /\
    final (exec env (CascadeService.setRetryLevels count) w) =
    final (exec env (Part000.setRetryLevels count) w).
Proof.
  intros env env' count w. rewrite !setRetryLevels_final.
  split; [| reflexivity].
  now rewrite (state_only_env env env' _ (resize_state_only count)).
Qed.

(** X10.  [setRetryLevels(count)], in both copies, never rewrites an
    entry it keeps.  For a counter and a count that are integers a
    double holds exactly, and a list that stays within the length an
    array can have: with more entries than [count] it leaves the first
    [count] of them (none for a negative [count]); otherwise it leaves
    all of them in place and appends [count - retries] names after
    them. *)
Theorem resize_keeps_entries :
  forall (env : Env) (count : Z) (w : World),
    Z.abs (retries w) <= max_safe ->
    Z.abs count <= max_safe ->
    Z.of_nat (List.length (topicsArr w)) + Z.max 0 (count - retries w)
      <= max_array_length ->
    let old := topicsArr w in
    let new :=
      topicsArr (final (exec env (CascadeService.setRetryLevels count) w)) in
    let new' :=
      topicsArr (final (exec env (Part000.setRetryLevels count) w)) in
    new' = new /\
    (Z.of_nat (List.length old) > count ->
     new = firstn (Z.to_nat count) old) /\
    (Z.of_nat (List.length old) <= count ->
     exists added,
       new = old ++ added /\
       List.length added = Z.to_nat (count - retries w)).
Proof.
  intros env count w _ _ _ old new new'. subst old new new'.
  rewrite setRetryLevels_final. unfold Part000.setRetryLevels.
  rewrite resize_any. unfold final; cbn [fst topicsArr].
  split; [reflexivity |].
  split; intros H.
  - destruct (Z.gtb_spec (Z.of_nat (List.length (topicsArr w))) count)
      as [_ | Hle]; [| lia].
    f_equal. lia.
  - destruct (Z.gtb_spec (Z.of_nat (List.length (topicsArr w))) count)
      as [Hgt | _]; [lia |].
    eexists. split; [reflexivity |].
    now rewrite length_map, length_seq.
Qed.

Lemma resize_keeps_entries_witness :
  topicsArr
    (final (exec agreeable (CascadeService.setRetryLevels 1)
              (mkWorld "t" 2 ["first"; "second"] TopicsArrOfService
                       false []))) = ["first"] /\
  exists added,
    topicsArr
      (final (exec agreeable (CascadeService.setRetryLevels 3)
                (mkWorld "t" 2 ["first"; "second"] TopicsArrOfService
                         false []))) = ["first"; "second"] ++ added /\
    List.length added = 1%nat.
Proof.
  split.
  - apply (resize_keeps_entries agreeable 1
             (mkWorld "t" 2 ["first"; "second"] TopicsArrOfService false []));
      vm_compute; try discriminate; reflexivity.
  - apply (resize_keeps_entries agreeable 3
             (mkWorld "t" 2 ["first"; "second"] TopicsArrOfService false []));
      vm_compute; try discriminate; reflexivity.
Defined.

(** X11.  [count] is not checked.  A negative [count = -(k+1)] empties
    the list, whatever it held, and is recorded in [retries] as it is;
    a following [setRetryLevels(N)] then numbers from [retries + 1]:
    it leaves [N + k + 1] entries, named [<topic>-cascade-retry-<j-k>]
    for [j = 0 .. N+k]. *)
Theorem negative_count :
  forall (env env' : Env) (k N : nat) (w : World),
    let w1 :=
      final (exec env
               (CascadeService.setRetryLevels (- Z.of_nat (S k))) w) in
    let w2 :=
      final (exec env' (CascadeService.setRetryLevels (Z.of_nat N)) w1) in
    topicsArr w1 = [] /\
    retries w1 = - Z.of_nat (S k) /\
    topicsArr w2 =
      map (fun j =>
             (topic w ++ "-cascade-retry-"
                ++ number_to_string (Z.of_nat j - Z.of_nat k))%string)
          (seq 0 (N + S k)) /\
    retries w2 = Z.of_nat N.
Proof.
  intros env env' k N w w1 w2. subst w2 w1.
  rewrite !setRetryLevels_final, !resize_any.
  unfold final; cbn [fst topicsArr retries topic].
  destruct (Z.gtb_spec (Z.of_nat (List.length (topicsArr w)))
                       (- Z.of_nat (S k))) as [_ | Hle]; [| lia].
  replace (List.length (topicsArr w)
           - Z.to_nat (Z.of_nat (List.length (topicsArr w))
                       - - Z.of_nat (S k)))%nat with O by lia.
  cbn [firstn List.length].
  destruct (Z.gtb_spec (Z.of_nat 0) (Z.of_nat N)) as [Hgt | _]; [lia |].
  repeat split.
  cbn [app].
  replace (Z.to_nat (Z.of_nat N - - Z.of_nat (S k))) with (N + S k)%nat
    by lia.
  apply map_ext. intros j. unfold retry_topic_name.
  rewrite append_assoc. do 3 f_equal. lia.
Qed.

(** X12.  Calling [setRetryLevels(N)] again with the same [N] changes no
    field of the service or of its producer. *)
Theorem same_count_again :
  forall (env env' : Env) (t : string) (n N : nat) (w : World),
    levels_are t n w ->
    let w1 :=
      final (exec env (CascadeService.setRetryLevels (Z.of_nat N)) w) in
    final (exec env' (CascadeService.setRetryLevels (Z.of_nat N)) w1) = w1.
Proof.
  intros env env' t n N w H w1. subst w1.
  rewrite !setRetryLevels_final.
  rewrite (resize_exec env t n N w H). unfold final at 2 3. cbn [fst].
  rewrite (resize_exec env' t N N); [reflexivity |].
  unfold levels_are; simpl. auto.
Qed.

Lemma same_count_again_witness :
  let w1 :=
    final (exec agreeable (CascadeService.setRetryLevels (Z.of_nat 3))
                (constructor "t")) in
  final (exec create_topics_fails
              (CascadeService.setRetryLevels (Z.of_nat 3)) w1) = w1.
Proof.
  apply (same_count_again agreeable create_topics_fails "t" 0 3
           (constructor "t") (constructor_levels "t")).
Defined.

(** ** Events *)

Lemma state_only_actions {A : Type} (env : Env) (p : Prog A) :
  state_only p -> forall w, actions (exec env p w) = [].
Proof.
  unfold actions.
  induction p as [a | e | k IH | g k IH | a k IH | op k IH | op k IH | ms k IH];
    simpl; intros H w; try contradiction; auto.
Qed.

Ltac all_listed :=
  repeat first [ apply Forall_nil
               | apply Forall_cons; [simpl; tauto |] ].

(** X13.  Every event the class in [cascadeService.ts] emits, from its
    methods, from the two callbacks [run] wires and from the listeners
    its constructor puts on the producer and the consumer, bears a name
    that [on] accepts. *)
Theorem emitted_events_can_be_subscribed :
  forall (env : Env) (w : World) (m : Method),
    Forall (fun name => In name CascadeService.events)
           (emitted_names (actions (exec env (method_body m) w))).
Proof.
  intros env w m.
  destruct m as [l | | | event callback | msg | msg | msg | msg | e | msg
                 | e | e]; cbn [method_body].
  - destruct l as [| | count | |]; cbn [lifecycle_body].
    + unfold CascadeService.connect, actions. cbn.
      repeat (next_op env; cbn); all_listed.
    + unfold CascadeService.disconnect, actions. cbn.
      repeat (next_op env; cbn); all_listed.
    + unfold CascadeService.setRetryLevels.
      rewrite exec_try_state_only by apply resize_state_only.
      generalize (final (exec env (resize count) w)). intros w1.
      unfold actions. cbn.
      repeat (next_op env; cbn); all_listed.
    + unfold CascadeService.run, actions. cbn.
      repeat (next_op env; cbn); all_listed.
    + unfold CascadeService.stop, actions. cbn.
      repeat (next_op env; cbn); all_listed.
  - unfold CascadeService.pause, actions. cbn [exec].
    destruct (producer_paused w); cbn;
      repeat (next_op env; cbn); all_listed.
  - unfold CascadeService.resume, actions. cbn [exec].
    destruct (producer_paused w); cbn;
      repeat (next_op env; cbn); all_listed.
  - unfold CascadeService.on.
    destruct (existsb (String.eqb event) CascadeService.events);
      constructor.
  - cbn. repeat (next_op env; cbn); all_listed.
  - rewrite failure_path_exec. unfold actions; cbn.
    destruct (env (ProducerSend msg)); cbn;
      destruct (heard "error" (listeners w)); cbn; all_listed.
  - cbn. repeat (next_op env; cbn); all_listed.
  - cbn. repeat (next_op env; cbn); all_listed.
  - cbn. repeat (next_op env; cbn); all_listed.
  - cbn. repeat (next_op env; cbn); all_listed.
  - cbn. repeat (next_op env; cbn); all_listed.
  - cbn. repeat (next_op env; cbn); all_listed.
Qed.

(** X14.  The class in [part_000] emits nothing but [run], [stop],
    [pause], [resume] and [error]: [receive], [success], [retry] and
    [dlq], which its [on] accepts, are never emitted by it. *)
Theorem part000_emits_five_events :
  forall (env : Env) (w : World) (m : Part000Method),
    Forall (fun name => In name ["run"; "stop"; "pause"; "resume"; "error"])
           (emitted_names (actions (exec env (part000_body m) w))).
Proof.
  intros env w m.
  destruct m as [consumer_first | count | | | | | event callback | msg | msg];
    cbn [part000_body].
  - unfold Part000.connect, actions.
    destruct consumer_first; cbn; repeat (next_op env; cbn); all_listed.
  - unfold Part000.setRetryLevels.
    rewrite (state_only_actions env _ (resize_state_only count)).
    constructor.
  - unfold Part000.run, actions. cbn.
    repeat (next_op env; cbn); all_listed.
  - cbn. repeat (next_op env; cbn); all_listed.
  - cbn. repeat (next_op env; cbn); all_listed.
  - cbn. repeat (next_op env; cbn); all_listed.
  - unfold Part000.on.
    destruct (existsb (String.eqb event) Part000.events); constructor.
  - cbn. repeat (next_op env; cbn); all_listed.
  - rewrite part000_failure_path_exec. unfold actions; cbn.
    destruct (env (ProducerSend msg)); cbn; all_listed.
Qed.

(** X15.  Every [error] event the class in [cascadeService.ts] emits,
    relayed ones included, carries a text that opens with
    ["Error in cascade"]. *)
Theorem error_events_are_qualified :
  forall (env : Env) (w : World) (m : Method),
    Forall (fun a => qualified_if_error a = true)
           (actions (exec env (method_body m) w)).
Proof.
  intros env w m.
  destruct m as [l | | | event callback | msg | msg | msg | msg | e | msg
                 | e | e]; cbn [method_body].
  - destruct l as [| | count | |]; cbn [lifecycle_body].
    + unfold CascadeService.connect, actions. cbn.
      repeat (next_op env; cbn); repeat constructor.
    + unfold CascadeService.disconnect, actions. cbn.
      repeat (next_op env; cbn); repeat constructor.
    + unfold CascadeService.setRetryLevels.
      rewrite exec_try_state_only by apply resize_state_only.
      generalize (final (exec env (resize count) w)). intros w1.
      unfold actions. cbn.
      repeat (next_op env; cbn); repeat constructor.
    + unfold CascadeService.run, actions. cbn.
      repeat (next_op env; cbn); repeat constructor.
    + unfold CascadeService.stop, actions. cbn.
      repeat (next_op env; cbn); repeat constructor.
  - unfold CascadeService.pause, actions. cbn [exec].
    destruct (producer_paused w); cbn;
      repeat (next_op env; cbn); repeat constructor.
  - unfold CascadeService.resume, actions. cbn [exec].
    destruct (producer_paused w); cbn;
      repeat (next_op env; cbn); repeat constructor.
  - unfold CascadeService.on.
    destruct (existsb (String.eqb event) CascadeService.events);
      constructor.
  - cbn. repeat (next_op env; cbn); repeat constructor.
  - rewrite failure_path_exec. unfold actions; cbn.
    destruct (env (ProducerSend msg)); cbn;
      destruct (heard "error" (listeners w)); cbn; repeat constructor.
  - cbn. repeat (next_op env; cbn); repeat constructor.
  - cbn. repeat (next_op env; cbn); repeat constructor.
  - cbn. repeat (next_op env; cbn); repeat constructor.
  - cbn. repeat (next_op env; cbn); repeat constructor.
  - cbn. repeat (next_op env; cbn); repeat constructor.
  - cbn. repeat (next_op env; cbn); repeat constructor.
Qed.

(** ** The controller's counters *)

Lemma tally_snoc (history : list Controller.Routed) (r : Controller.Routed) :
  Controller.tally (history ++ [r]) =
  Controller.record (Controller.tally history) r.
Proof. unfold Controller.tally. now rewrite fold_left_app. Qed.

Lemma count_snoc (j : nat) (history : list Controller.Routed)
      (r : Controller.Routed) :
  Z.of_nat (List.length (filter (Controller.lands_on j) (history ++ [r]))) =
  Z.of_nat (List.length (filter (Controller.lands_on j) history)) +
  (if Controller.lands_on j r then 1 else 0).
Proof.
  rewrite filter_app, length_app. cbn [filter].
  destruct (Controller.lands_on j r); cbn [List.length]; lia.
Qed.

(** With every success at a level the array has a slot for, slot [j]
    counts the reports that land on [j]. *)
Lemma tally_slots (history : list Controller.Routed) :
  forallb Controller.within_levels history = true ->
  Controller.tally history =
  map (fun j =>
         Some (Controller.Num
                 (Z.of_nat
                    (List.length (filter (Controller.lands_on j) history)))))
      (seq 0 (Controller.retryLevels + 1)).
Proof.
  induction history as [| r history IH] using rev_ind; intros H.
  - reflexivity.
  - rewrite forallb_app in H. apply andb_true_iff in H as [Hh Hr].
    cbn in Hr. rewrite andb_true_r in Hr.
    rewrite tally_snoc, (IH Hh).
    cbn [Controller.retryLevels Nat.add seq map].
    rewrite !count_snoc.
    destruct r as [retries |]; cbn [Controller.record].
    + unfold Controller.within_levels, Controller.retryLevels in Hr.
      apply Nat.leb_le in Hr.
      do 6 (destruct retries as [| retries];
            [cbn; rewrite ?Z.add_0_r; reflexivity |]).
      lia.
    + cbn. rewrite ?Z.add_0_r. reflexivity.
Qed.

(** X16.  As long as every success is reported at a level from 0 to
    [retryLevels], the controller's array keeps its [retryLevels + 1]
    slots, every slot holds a number, and the slots add up to the number
    of reports: each success and each dead letter is counted once. *)
Theorem levelCounts_add_up :
  forall history : list Controller.Routed,
    forallb Controller.within_levels history = true ->
    List.length (Controller.tally history) = (Controller.retryLevels + 1)%nat /\
    forallb Controller.is_number (Controller.tally history) = true /\
    Controller.total (Controller.tally history) =
      Z.of_nat (List.length history).
Proof.
  intros history H.
  induction history as [| r history IH] using rev_ind.
  - repeat split.
  - pose proof H as H'.
    rewrite forallb_app in H'. apply andb_true_iff in H' as [Hh Hr].
    cbn in Hr. rewrite andb_true_r in Hr.
    destruct (IH Hh) as (_ & _ & IT).
    rewrite (tally_slots _ H).
    rewrite (tally_slots _ Hh) in IT.
    cbn [Controller.retryLevels Nat.add seq map] in IT |- *.
    split; [reflexivity |]. split; [reflexivity |].
    cbn [Controller.total] in IT |- *.
    rewrite !count_snoc, length_app. cbn [List.length].
    destruct r as [retries |].
    + unfold Controller.within_levels, Controller.retryLevels in Hr.
      apply Nat.leb_le in Hr.
      do 6 (destruct retries as [| retries]; [cbn; lia |]).
      lia.
    + cbn. lia.
Qed.

Lemma levelCounts_add_up_witness :
  Controller.total
    (Controller.tally
       [Controller.Succeeded 0; Controller.DeadLettered;
        Controller.Succeeded 5; Controller.Succeeded 2]) = 4.
Proof.
  apply (levelCounts_add_up
           [Controller.Succeeded 0; Controller.DeadLettered;
            Controller.Succeeded 5; Controller.Succeeded 2]).
  reflexivity.
Defined.

(** X17.  Under the same condition the last slot of the controller's
    array does double duty: it holds the number of dead letters plus the
    number of successes at level [retryLevels]; a slot [j] below it holds
    the number of successes at level [j]. *)
Theorem last_slot_is_shared :
  forall (history : list Controller.Routed) (j : nat),
    forallb Controller.within_levels history = true ->
    (j <= Controller.retryLevels)%nat ->
    nth_error (Controller.tally history) j =
    Some (Some (Controller.Num
      (Z.of_nat
         (List.length
            (filter (fun r =>
                       match r with
                       | Controller.Succeeded retries => (retries =? j)%nat
                       | Controller.DeadLettered =>
                           (j =? Controller.retryLevels)%nat
                       end) history))))).
Proof.
  intros history j H Hj. rewrite (tally_slots _ H).
  rewrite nth_error_map, nth_error_seq.
  destruct (Nat.ltb_spec j (Controller.retryLevels + 1)) as [_ | Hge];
    [reflexivity | lia].
Qed.

Lemma last_slot_is_shared_witness :
  nth_error
    (Controller.tally
       [Controller.Succeeded 5; Controller.DeadLettered;
        Controller.DeadLettered; Controller.Succeeded 1]) 5 =
  Some (Some (Controller.Num 3)).
Proof.
  apply (last_slot_is_shared
           [Controller.Succeeded 5; Controller.DeadLettered;
            Controller.DeadLettered; Controller.Succeeded 1] 5).
  - reflexivity.
  - unfold Controller.retryLevels. lia.
Defined.





(** ** The rest of part_000's connect *)

(** X19.  In [part_000], [connect()] emits no event in any case, changes
    no field, and the promise it hands back resolves exactly when both
    the producer's and the consumer's connect fulfil. *)
Theorem part000_connect_outcome :
  forall (env : Env) (w : World) (consumer_first : bool),
    let r := exec env (Part000.connect consumer_first) w in
    emitted_names (actions r) = [] /\
    final r = w /\
    ((exists v, settlement (actions r) = Some (inr v)) <->
     (await_failure (env ProducerConnect) = None /\
      await_failure (env ConsumerConnect) = None)).
Proof.
  intros env w consumer_first.
  unfold Part000.connect, actions, final.
  destruct consumer_first; cbn;
    destruct (env ProducerConnect) eqn:Ep; cbn;
    destruct (env ConsumerConnect) eqn:Ec; cbn;
    repeat (next_op env; cbn);
    (split; [reflexivity |]); (split; [reflexivity |]);
    (split; [intros (v' & Hv); try discriminate Hv; auto
            | intros [H1 H2]; try discriminate H1; try discriminate H2;
              eexists; reflexivity]).
Qed.

(** ** Subscriptions *)

Lemma on_final (env : Env) (event : string) (callback : Listener)
      (w : World) :
  final (exec env (CascadeService.on event callback) w) =
  if existsb (String.eqb event) CascadeService.events
  then add_listener event callback w
  else w.
Proof.
  unfold CascadeService.on.
  destruct (existsb (String.eqb event) CascadeService.events); reflexivity.
Qed.

(** X20.  After any series of [on] calls on the class of
    [cascadeService.ts], the listener table is what it was followed by
    the calls with a recognized name, in the order they were made; a
    call that throws disturbs neither the handlers registered before it
    nor any other field. *)
Theorem subscriptions_accumulate :
  forall (calls : list (string * Listener)) (w : World),
    after_subscriptions calls w =
    mkWorld (topic w) (retries w) (topicsArr w) (producer_retryTopics w)
            (producer_paused w) (listeners w ++ filter recognized calls).
Proof.
  induction calls as [| [event callback] rest IH]; intros w.
  - simpl. rewrite app_nil_r. destruct w; reflexivity.
  - cbn [after_subscriptions filter]. rewrite IH, on_final.
    unfold recognized at 2. cbn [fst].
    destruct (existsb (String.eqb event) CascadeService.events).
    + unfold add_listener; simpl. now rewrite <- app_assoc.
    + reflexivity.
Qed.

(** ** Who writes what *)

(** X21.  Of everything in the class of [cascadeService.ts], only
    [setRetryLevels] changes the topic, the counter, the list or the
    producer's reference to it; only [pause] and [resume] change the
    pause flag; only [on] changes the listener table. *)
Theorem writes_are_confined :
  forall (env : Env) (w : World) (m : Method),
    let w' := final (exec env (method_body m) w) in
    (is_setRetryLevels m = false ->
     topic w' = topic w /\ retries w' = retries w /\
     topicsArr w' = topicsArr w /\
     producer_retryTopics w' = producer_retryTopics w) /\
    (is_pause_or_resume m = false -> producer_paused w' = producer_paused w) /\
    (is_on m = false -> listeners w' = listeners w).
Proof.
  intros env w m.
  destruct m as [l | | | event callback | msg | msg | msg | msg | e | msg
                 | e | e]; cbn [method_body].
  - destruct l as [| | count | |]; cbn [lifecycle_body].
    + unfold CascadeService.connect, final. cbn.
      repeat (next_op env; cbn); auto.
    + unfold CascadeService.disconnect, final. cbn.
      repeat (next_op env; cbn); auto.
    + rewrite setRetryLevels_final, resize_any. unfold final; cbn.
      split; [intros H; discriminate H | auto].
    + unfold CascadeService.run, final. cbn.
      repeat (next_op env; cbn); auto.
    + unfold CascadeService.stop, final. cbn.
      repeat (next_op env; cbn); auto.
  - unfold CascadeService.pause, final. cbn [exec].
    destruct (producer_paused w) eqn:Ep; cbn;
      repeat (next_op env; cbn);
      (split; [auto | split; [intros H; discriminate H | auto]]).
  - unfold CascadeService.resume, final. cbn [exec].
    destruct (producer_paused w) eqn:Ep; cbn;
      repeat (next_op env; cbn);
      (split; [auto | split; [intros H; discriminate H | auto]]).
  - rewrite on_final.
    destruct (existsb (String.eqb event) CascadeService.events); cbn;
      (split; [auto | split; [auto | intros H; discriminate H]]).
  - unfold final. cbn. repeat (next_op env; cbn); auto.
  - rewrite failure_path_exec. cbn. auto.
  - unfold final. cbn. repeat (next_op env; cbn); auto.
  - unfold final. cbn. repeat (next_op env; cbn); auto.
  - unfold final. cbn. repeat (next_op env; cbn); auto.
  - unfold final. cbn. repeat (next_op env; cbn); auto.
  - unfold final. cbn. repeat (next_op env; cbn); auto.
  - unfold final. cbn. repeat (next_op env; cbn); auto.
Qed.

Lemma writes_are_confined_witness :
  topicsArr (final (exec consumer_unreachable CascadeService.connect
                         (after_calls [(2%nat, agreeable)] (constructor "t"))))
  = ["t-cascade-retry-1"; "t-cascade-retry-2"].
Proof.
  apply (writes_are_confined consumer_unreachable
           (after_calls [(2%nat, agreeable)] (constructor "t"))
           (MLifecycle LConnect)).
  reflexivity.
Defined.
